(** * Design-Patterns-Python: iterator, observer, singleton and decorator

    A shallow embedding of four of the repository's example programs
    ([iterator_pattern.py], [observer_pattern.py], [singleton_pattern.py],
    [decorator_pattern.py]) and the properties their specification
    states about them, followed by client programs of these four and by
    three more examples ([strategy_pattern.py], [builder_pattern.py],
    [factory_method_pattern.py]) with properties read off the code.

    Python objects live in a heap indexed by locations, so that two
    references to one object (the list shared by a collection and its
    cursors, the single [Singleton] instance) are one heap cell.  Methods
    are computations in a state-and-exception monad over that heap. *)

From stdpp Require Import base option list gmap strings pretty.

Open Scope string_scope.
Open Scope Z_scope.
Open Scope list_scope.

(** ** Python values, exceptions and the execution monad *)

(** Object identity: the address of a heap cell. *)
Abbreviation loc := nat.

(** The values the examples pass around: [None], integers and strings. *)
Inductive pyval : Type :=
  | VNone
  | VInt (n : Z)
  | VStr (s : string).

Global Instance pyval_eq_dec : EqDecision pyval.
Proof. solve_decision. Defined.

(** The built-in exceptions the examples can raise. *)
Inductive exn : Type :=
  | StopIteration
  | ValueError
  | IndexError
  | TypeError
  | AttributeError.

Global Instance exn_eq_dec : EqDecision exn.
Proof. solve_decision. Defined.

(** How a call ends: with a value or with a raised exception. *)
Inductive result (A : Type) : Type :=
  | Ok (a : A)
  | Raise (e : exn).
Global Arguments Ok {A} a.
Global Arguments Raise {A} e.

Global Instance result_eq_dec `{EqDecision A} : EqDecision (result A).
Proof. solve_decision. Defined.

Definition is_ok {A} (r : result A) : bool :=
  match r with Ok _ => true | Raise _ => false end.

(** A computation over a world [W]: it always returns the world it
    leaves behind, also when it raises. *)
Definition exec (W A : Type) : Type := W → W * result A.

Global Instance exec_ret {W} : MRet (exec W) := λ A a w, (w, Ok a).
Global Instance exec_bind {W} : MBind (exec W) := λ A B f m w,
  match m w with
  | (w', Ok a) => f a w'
  | (w', Raise e) => (w', Raise e)
  end.

Definition raise {W A} (e : exn) : exec W A := λ w, (w, Raise e).
Definition get {W} : exec W W := λ w, (w, Ok w).
Definition modify {W} (f : W → W) : exec W () := λ w, (f w, Ok ()).

(** [attempt m] runs [m] inside [try: ... except: ...]: whatever [m]
    raises is caught, and its outcome is handed back as a value. *)
Definition attempt {W A} (m : exec W A) : exec W (result A) := λ w,
  let '(w', r) := m w in (w', Ok r).

(** [for x in xs: body x]. *)
Fixpoint for_each {W A} (xs : list A) (body : A → exec W ()) : exec W () :=
  match xs with
  | [] => mret ()
  | x :: xs' => body x ;; for_each xs' body
  end.

(** Python refuses to turn an integer of more than 4300 decimal digits
    into text (the default of [sys.int_max_str_digits]): the integers
    that [str] accepts are those below this bound in absolute value. *)
Definition int_str_limit : Z := 10 ^ 4300.
Global Arguments int_str_limit : simpl never.

(** [str(v)], as [print] and an f-string format a value; [ValueError]
    for an integer with too many digits. *)
Definition py_str (v : pyval) : result string :=
  match v with
  | VNone => Ok "None"
  | VInt n => if decide (Z.abs n < int_str_limit) then Ok (pretty n)
              else Raise ValueError
  | VStr s => Ok s
  end.

(** [str(v)] inside a computation. *)
Definition str_of {W} (v : pyval) : exec W string := λ w, (w, py_str v).

(** The smallest integer that [str] refuses: it has 4301 digits. *)
Definition huge : pyval := VInt int_str_limit.

(** The values that [str] accepts, and the text it gives for them. *)
Definition printable (v : pyval) : Prop := is_ok (py_str v) = true.

Definition text_of (v : pyval) : string :=
  match py_str v with
  | Ok s => s
  | Raise _ => ""
  end.

(** ** iterator_pattern.py *)

Module IteratorPattern.

(** A [MyIterator] instance: [_items], a reference to a list, and
    [_index], a position in it. *)
Record MyIteratorObj : Type := { it_items : loc; it_index : nat }.

(** A [MyCollection] instance: [_items], a reference to its list. *)
Record MyCollectionObj : Type := { coll_items : loc }.

Inductive object : Type :=
  | OList (xs : list pyval)
  | OCollection (c : MyCollectionObj)
  | OIterator (it : MyIteratorObj).

Abbreviation heap := (gmap loc object).

(** Creating an object: a cell at an address not yet in use. *)
Definition alloc (o : object) : exec heap loc := λ h,
  let l := fresh (dom h) in (<[l := o]> h, Ok l).

(** Attribute access [self._items] / [self._index]: the object must be
    an instance of the class that has the attribute. *)
Definition get_collection (self : loc) : exec heap MyCollectionObj := λ h,
  match h !! self with
  | Some (OCollection c) => (h, Ok c)
  | _ => (h, Raise AttributeError)
  end.

Definition get_iterator (self : loc) : exec heap MyIteratorObj := λ h,
  match h !! self with
  | Some (OIterator it) => (h, Ok it)
  | _ => (h, Raise AttributeError)
  end.

(** The list that [l] refers to.  [e] is what the operation at hand
    raises when the object is no list: [TypeError] for [len(...)],
    [AttributeError] for [....append]. *)
Definition get_list (e : exn) (l : loc) : exec heap (list pyval) := λ h,
  match h !! l with
  | Some (OList xs) => (h, Ok xs)
  | _ => (h, Raise e)
  end.

Definition store (l : loc) (o : object) : exec heap () :=
  modify (λ h, <[l := o]> h).

(** [items[i]] for a non-negative [i]. *)
Definition list_getitem (xs : list pyval) (i : nat) : exec heap pyval :=
  match xs !! i with
  | Some x => mret x
  | None => raise IndexError
  end.

Module MyIterator.
(** [MyIterator(items)]: keeps the reference it is given. *)
Definition __init__ (items : loc) : exec heap loc :=
  alloc (OIterator {| it_items := items; it_index := 0 |}).

Definition __next__ (self : loc) : exec heap pyval :=
  it ← get_iterator self;
  items ← get_list TypeError (it_items it);
  if decide (it_index it < length items)%nat then
    item ← list_getitem items (it_index it);
    store self (OIterator {| it_items := it_items it;
                             it_index := it_index it + 1 |}) ;;
    mret item
  else raise StopIteration.
End MyIterator.

Module MyCollection.
(** [MyCollection()]: a new empty list, and the object holding it. *)
Definition __init__ : exec heap loc :=
  items ← alloc (OList []);
  alloc (OCollection {| coll_items := items |}).

(** [self._items.append(item)] *)
Definition add_item (self : loc) (item : pyval) : exec heap () :=
  c ← get_collection self;
  items ← get_list AttributeError (coll_items c);
  store (coll_items c) (OList (items ++ [item])).

Definition __iter__ (self : loc) : exec heap loc :=
  c ← get_collection self;
  MyIterator.__init__ (coll_items c).
End MyCollection.

(** Client code: [for item in items: collection.add_item(item)]. *)
Definition add_items (self : loc) (items : list pyval) : exec heap () :=
  for_each items (MyCollection.add_item self).

(** Client code: [n] calls of [next(cursor)], each caught; the list of
    their outcomes, first call first. *)
Fixpoint nexts (n : nat) (cursor : loc) : exec heap (list (result pyval)) :=
  match n with
  | O => mret []
  | S n' =>
      r ← attempt (MyIterator.__next__ cursor);
      rs ← nexts n' cursor;
      mret (r :: rs)
  end.

(** Client code: a new collection, [items] appended one by one, a
    cursor over it, and [n] calls of [next]. *)
Definition fresh_cursor_run (items : list pyval) (n : nat)
  : exec heap (list (result pyval)) :=
  c ← MyCollection.__init__;
  add_items c items ;;
  cursor ← MyCollection.__iter__ c;
  nexts n cursor.

(** Client code: a cursor over [c], [j] calls of [next], then [items]
    appended to [c], then [n] more calls of [next] on the same cursor. *)
Definition append_after_iter (c : loc) (j : nat) (items : list pyval) (n : nat)
  : exec heap (list (result pyval) * list (result pyval)) :=
  cursor ← MyCollection.__iter__ c;
  before ← nexts j cursor;
  add_items c items ;;
  after ← nexts n cursor;
  mret (before, after).

(** [contents h c xs]: [c] is a collection whose list currently holds [xs]. *)
Definition contents (h : heap) (c : loc) (xs : list pyval) : Prop :=
  ∃ col, h !! c = Some (OCollection col) ∧
         h !! coll_items col = Some (OList xs).

(** [collection_at h c l]: [c] is a collection whose list is at [l]. *)
Definition collection_at (h : heap) (c l : loc) : Prop :=
  h !! c = Some (OCollection {| coll_items := l |}).

(** [cursor_at h cur l i]: [cur] is a cursor over the list at [l],
    standing at position [i]. *)
Definition cursor_at (h : heap) (cur l : loc) (i : nat) : Prop :=
  h !! cur = Some (OIterator {| it_items := l; it_index := i |}).

(** What [n] calls produce from position [i]: the elements from [i] on,
    as far as they go, then only exhaustion. *)
Definition outcomes (xs : list pyval) (i n : nat) : list (result pyval) :=
  (Ok <$> take n (drop i xs)) ++
  replicate (n - (length xs - i)) (Raise StopIteration).

(** The reading under which a cursor is a snapshot: appending [items]
    right after the cursor's creation changes nothing in what [n] calls
    of [next] produce. *)
Definition appends_unseen (h : heap) (c : loc) (items : list pyval) (n : nat)
  : Prop :=
  (append_after_iter c 0 items n h).2 = (append_after_iter c 0 [] n h).2.

(** A heap with one collection, at address 1, holding ["Apple"]. *)
Definition apple_heap : heap :=
  {[ 0%nat := OList [VStr "Apple"];
     1%nat := OCollection {| coll_items := 0 |} ]}.

(** The last lines of the script: a cursor over the three-fruit
    collection and two calls of [next]. *)
Definition usage : exec heap (list (result pyval)) :=
  fresh_cursor_run [VStr "Apple"; VStr "Banana"; VStr "Cherry"] 2.

End IteratorPattern.

(** ** observer_pattern.py *)

Module ObserverPattern.

(** A [Subject] instance.  Its list [_observers] is reachable through
    the subject only, so it is kept inside the object; its elements are
    references to the attached objects, in the order of [append]. *)
Record SubjectObj : Type := { _observers : list loc; _state : pyval }.

(** An [Observer] instance. *)
Record ObserverObj : Type := { name : pyval }.

Inductive object : Type :=
  | OSubject (s : SubjectObj)
  | OObserver (o : ObserverObj).

(** The heap, the lines printed so far, and the calls of [update] made
    so far (receiver and argument, oldest first). *)
Record world : Type := {
  heap : gmap loc object;
  stdout : list string;
  received : list (loc * pyval)
}.

Definition alloc (o : object) : exec world loc := λ w,
  let l := fresh (dom (heap w)) in
  ({| heap := <[l := o]> (heap w); stdout := stdout w;
      received := received w |}, Ok l).

Definition store (l : loc) (o : object) : exec world () :=
  modify (λ w, {| heap := <[l := o]> (heap w); stdout := stdout w;
                  received := received w |}).

Definition print (line : string) : exec world () :=
  modify (λ w, {| heap := heap w; stdout := stdout w ++ [line];
                  received := received w |}).

Definition record_call (self : loc) (arg : pyval) : exec world () :=
  modify (λ w, {| heap := heap w; stdout := stdout w;
                  received := received w ++ [(self, arg)] |}).

Definition get_subject (self : loc) : exec world SubjectObj := λ w,
  match heap w !! self with
  | Some (OSubject s) => (w, Ok s)
  | _ => (w, Raise AttributeError)
  end.

Definition get_observer (self : loc) : exec world ObserverObj := λ w,
  match heap w !! self with
  | Some (OObserver o) => (w, Ok o)
  | _ => (w, Raise AttributeError)
  end.

(** [list.remove(x)]: drops the first element equal to [x]; [None]
    when there is none (Python raises [ValueError] and leaves the list
    as it is).  Instances of [Observer] and [Subject] define no
    [__eq__], so equality is identity. *)
Fixpoint list_remove (x : loc) (xs : list loc) : option (list loc) :=
  match xs with
  | [] => None
  | y :: ys => if decide (y = x) then Some ys
               else (y ::.) <$> list_remove x ys
  end.

Module Observer.
Definition __init__ (name : pyval) : exec world loc :=
  alloc (OObserver {| name := name |}).

Definition update (self : loc) (state : pyval) : exec world () :=
  o ← get_observer self;
  record_call self state ;;
  name_text ← str_of (name o);
  state_text ← str_of state;
  print ("Observer " +:+ name_text +:+
         ": Subject's state is now " +:+ state_text).
End Observer.

Module Subject.
Definition __init__ : exec world loc :=
  alloc (OSubject {| _observers := []; _state := VNone |}).

Definition attach (self observer : loc) : exec world () :=
  s ← get_subject self;
  store self (OSubject {| _observers := _observers s ++ [observer];
                          _state := _state s |}).

Definition detach (self observer : loc) : exec world () :=
  s ← get_subject self;
  match list_remove observer (_observers s) with
  | Some observers' =>
      store self (OSubject {| _observers := observers';
                              _state := _state s |})
  | None => raise ValueError
  end.

(** [for observer in self._observers: observer.update(self._state)].
    [update] changes neither the list nor the state, so the loop runs
    over the list as it is when the loop starts. *)
Definition _notify (self : loc) : exec world () :=
  s ← get_subject self;
  for_each (_observers s) (λ observer,
    s' ← get_subject self;
    Observer.update observer (_state s')).

(** The property [state]: its getter ... *)
Definition state (self : loc) : exec world pyval :=
  s ← get_subject self;
  mret (_state s).

(** ... and its setter, [self.state = new_state]. *)
Definition state_setter (self : loc) (new_state : pyval) : exec world () :=
  s ← get_subject self;
  store self (OSubject {| _observers := _observers s;
                          _state := new_state |}) ;;
  _notify self.
End Subject.

Definition newline : string := String (Ascii.ascii_of_nat 10) "".

(** The script at the end of the file. *)
Definition usage : exec world () :=
  subject ← Subject.__init__;
  observer1 ← Observer.__init__ (VStr "Observer 1");
  observer2 ← Observer.__init__ (VStr "Observer 2");
  observer3 ← Observer.__init__ (VStr "Observer 3");
  Subject.attach subject observer1 ;;
  Subject.attach subject observer2 ;;
  Subject.attach subject observer3 ;;
  print "Setting subject state to 10" ;;
  Subject.state_setter subject (VInt 10) ;;
  print (newline +:+ "Detaching Observer 2") ;;
  Subject.detach subject observer2 ;;
  print (newline +:+ "Setting subject state to 20") ;;
  Subject.state_setter subject (VInt 20).

Definition empty_world : world :=
  {| heap := ∅; stdout := []; received := [] |}.

(** The line [update] prints for an observer named [nm]. *)
Definition update_line (nm state : pyval) : string :=
  "Observer " +:+ text_of nm +:+ ": Subject's state is now " +:+ text_of state.

(** The [name] of the observer at [o]. *)
Definition name_of (h : gmap loc object) (o : loc) : pyval :=
  match h !! o with
  | Some (OObserver ob) => name ob
  | _ => VNone
  end.

(** The calls of [update] made between world [w] and a later [w']. *)
Definition new_calls (w w' : world) : list (loc * pyval) :=
  drop (length (received w)) (received w').

(** The states delivered to [o] by the calls [calls], oldest first. *)
Definition deliveries (o : loc) (calls : list (loc * pyval)) : list pyval :=
  snd <$> filter (λ c, c.1 = o) calls.

(** How often [o] is registered in [observers]. *)
Definition registrations (o : loc) (observers : list loc) : nat :=
  length (filter (λ x, x = o) observers).

(** [subject_at h self observers st]: [self] is a subject with that
    list of attached objects and that state. *)
Definition subject_at (h : gmap loc object) (self : loc)
    (observers : list loc) (st : pyval) : Prop :=
  h !! self = Some (OSubject {| _observers := observers; _state := st |}).

(** Every attached object is an instance of [Observer]. *)
Definition observers_ok (h : gmap loc object) (observers : list loc) : Prop :=
  Forall (λ o, ∃ ob, h !! o = Some (OObserver ob)) observers.

(** The name of every attached observer can be printed. *)
Definition names_printable (h : gmap loc object) (observers : list loc)
  : Prop :=
  Forall (λ o, printable (name_of h o)) observers.

(** Every [update] that a notification with [st] makes can print its
    line: nothing is asked when nobody is attached. *)
Definition can_print (h : gmap loc object) (st : pyval)
    (observers : list loc) : Prop :=
  Forall (λ o, printable (name_of h o) ∧ printable st) observers.

(** Client code: [for _ in range(k): subject.attach(observer)]. *)
Definition attach_times (k : nat) (self observer : loc) : exec world () :=
  for_each (replicate k observer) (Subject.attach self).

(** Client code: [subject.detach(observer); subject.state = v]. *)
Definition detach_then_set (self observer : loc) (v : pyval) : exec world () :=
  Subject.detach self observer ;;
  Subject.state_setter self v.

(** Between [w] and [w'], [o] receives no call of [update]. *)
Definition unnotified (o : loc) (w w' : world) : Prop :=
  deliveries o (new_calls w w') = [].

(** A subject, at address 0, with nothing attached, and an observer
    ["A"], at address 1. *)
Definition none_attached : world :=
  {| heap := {[ 0%nat := OSubject {| _observers := []; _state := VNone |};
                1%nat := OObserver {| name := VStr "A" |} ]};
     stdout := []; received := [] |}.

(** The reading "every attached subscriber is notified exactly once":
    between [w] and [w'], each object in [observers] gets the single
    delivery [v]. *)
Definition each_notified_once (observers : list loc) (v : pyval)
    (w w' : world) : Prop :=
  ∀ o, o ∈ observers → deliveries o (new_calls w w') = [v].


(** A subject, at address 0, with one observer ["A"], at address 1,
    attached twice. *)
Definition twice_attached : world :=
  {| heap := {[ 0%nat := OSubject {| _observers := [1%nat; 1%nat];
                                     _state := VNone |};
                1%nat := OObserver {| name := VStr "A" |} ]};
     stdout := []; received := [] |}.

(** The world of the script after its three [attach] calls: the subject
    at address 0, the observers at 1, 2 and 3. *)
Definition three_attached : world :=
  {| heap := {[ 0%nat := OSubject {| _observers := [1%nat; 2%nat; 3%nat];
                                     _state := VNone |};
                1%nat := OObserver {| name := VStr "Observer 1" |};
                2%nat := OObserver {| name := VStr "Observer 2" |};
                3%nat := OObserver {| name := VStr "Observer 3" |} ]};
     stdout := []; received := [] |}.

End ObserverPattern.

(** ** singleton_pattern.py *)

Module SingletonPattern.

(** An instance of [Singleton]: a bare object whose attribute [value]
    is absent until it is assigned. *)
Record SingletonObj : Type := { value : option pyval }.

(** The class attribute [Singleton._instance] ([None] or a reference)
    and the heap of instances. *)
Record world : Type := {
  _instance : option loc;
  heap : gmap loc SingletonObj
}.

(** [super(Singleton, cls).__new__(cls)]: a new object, no attributes. *)
Definition object_new : exec world loc := λ w,
  let l := fresh (dom (heap w)) in
  ({| _instance := _instance w;
      heap := <[l := {| value := None |}]> (heap w) |}, Ok l).

Definition set_instance (r : option loc) : exec world () :=
  modify (λ w, {| _instance := r; heap := heap w |}).

Definition get_instance : exec world (option loc) :=
  w ← get; mret (_instance w).

(** [r.value], also for [r] being [None]. *)
Definition getattr_value (r : option loc) : exec world pyval := λ w,
  match r with
  | Some l =>
      match heap w !! l with
      | Some {| value := Some v |} => (w, Ok v)
      | _ => (w, Raise AttributeError)
      end
  | None => (w, Raise AttributeError)
  end.

(** [r.value = v] *)
Definition setattr_value (r : option loc) (v : pyval) : exec world () := λ w,
  match r with
  | Some l =>
      match heap w !! l with
      | Some _ => ({| _instance := _instance w;
                      heap := <[l := {| value := Some v |}]> (heap w) |},
                   Ok ())
      | None => (w, Raise AttributeError)
      end
  | None => (w, Raise AttributeError)
  end.

(** [a + b] on the values modelled. *)
Definition py_add (a b : pyval) : exec world pyval :=
  match a, b with
  | VInt m, VInt n => mret (VInt (m + n))
  | VStr s, VStr t => mret (VStr (s +:+ t))
  | _, _ => raise TypeError
  end.

Module Singleton.
(** [Singleton()] runs [__new__] and then [object.__init__], which
    does nothing; the result is whatever [cls._instance] holds. *)
Definition __new__ : exec world (option loc) :=
  inst ← get_instance;
  (if decide (inst = None) then
     l ← object_new;
     set_instance (Some l) ;;
     inst' ← get_instance;
     setattr_value inst' (VInt 0)
   else mret ()) ;;
  get_instance.

(** [self.value += 1] *)
Definition increment (self : option loc) : exec world () :=
  v ← getattr_value self;
  v' ← py_add v (VInt 1);
  setattr_value self v'.
End Singleton.

(** The state of a program that has not yet asked for the instance. *)
Definition initial : world := {| _instance := None; heap := ∅ |}.

(** The script at the end of the file; it yields the two values it
    prints and whether [s1 is s2]. *)
Definition usage : exec world (pyval * pyval * bool) :=
  s1 ← Singleton.__new__;
  Singleton.increment s1 ;;
  v1 ← getattr_value s1;
  s2 ← Singleton.__new__;
  Singleton.increment s2 ;;
  v2 ← getattr_value s2;
  mret (v1, v2, bool_decide (s1 = s2)).

(** What a client can do with the class. *)
Inductive op : Type :=
  | Construct                  (* [Singleton()] *)
  | Increment (r : option loc) (* [r.increment()] *).

(** Runs the operations in order and collects the references that the
    construction requests return. *)
Fixpoint run (ops : list op) : exec world (list (option loc)) :=
  match ops with
  | [] => mret []
  | Construct :: ops' =>
      r ← Singleton.__new__;
      rs ← run ops';
      mret (r :: rs)
  | Increment r :: ops' =>
      _ ← attempt (Singleton.increment r);
      run ops'
  end.

Global Instance op_eq_dec : EqDecision op.
Proof. solve_decision. Defined.

(** How many of the operations [ops] are an [increment] through a
    reference to the object at [l]. *)
Definition increments_through (l : loc) (ops : list op) : nat :=
  length (filter (λ o, o = Increment (Some l)) ops).

(** Client code, in the order of the script and back: a first request,
    the value read and then incremented through it; whatever the
    operations [between] do; a second request, made after the
    increment, and the value read through it; an increment through the
    second reference, and the value read through the first. *)
Definition two_requests (between : list op)
  : exec world (option loc * list (option loc) * option loc
                * pyval * pyval * pyval) :=
  a ← Singleton.__new__;
  start ← getattr_value a;
  Singleton.increment a ;;
  rs ← run between;
  b ← Singleton.__new__;
  seen ← getattr_value b;
  Singleton.increment b ;;
  back ← getattr_value a;
  mret (a, rs, b, start, seen, back).

(** The worlds a program can be in: if the instance exists, it is an
    object on the heap whose [value] is an integer. *)
Definition wf (w : world) : Prop :=
  ∀ l, _instance w = Some l →
       ∃ n, heap w !! l = Some {| value := Some (VInt n) |}.

(** A world in which the instance exists and has been incremented five
    times. *)
Definition incremented : world :=
  {| _instance := Some 0%nat;
     heap := {[ 0%nat := {| value := Some (VInt 5) |} ]} |}.

End SingletonPattern.

(** ** decorator_pattern.py *)

Module DecoratorPattern.

(** The world is the console: the lines printed so far. *)
Abbreviation stdout := (list string).

Definition print (line : string) : exec stdout () :=
  modify (λ out, out ++ [line]).

Section wrappers.
(** A wrapper hands [*args, **kwargs] on as it got them: the
    argument package is an opaque value of some type [Args]. *)
Context {Args R : Type}.

Definition greet (func : Args → exec stdout R) : Args → exec stdout R :=
  λ args,
    print "Hello!" ;;
    func args.

Definition farewell (func : Args → exec stdout R) : Args → exec stdout R :=
  λ args,
    result ← func args;
    print "Goodbye!" ;;
    mret result.
End wrappers.

(** The undecorated body of [say_name]: no [return], so [None]. *)
Definition say_name_body (name : pyval) : exec stdout pyval :=
  name_text ← str_of name;
  print ("My name is " +:+ name_text +:+ ".") ;;
  mret VNone.

(** [@greet @farewell def say_name] *)
Definition say_name : pyval → exec stdout pyval :=
  greet (farewell say_name_body).

Definition add_numbers_body (ab : pyval * pyval) : exec stdout pyval :=
  match ab with
  | (VInt a, VInt b) => mret (VInt (a + b))
  | (VStr a, VStr b) => mret (VStr (a +:+ b))
  | _ => raise TypeError
  end.

(** [@greet def add_numbers] *)
Definition add_numbers : pyval * pyval → exec stdout pyval :=
  greet add_numbers_body.

(** The script at the end of the file. *)
Definition usage : exec stdout () :=
  say_name (VStr "Alice") ;;
  result ← add_numbers (VInt 5, VInt 3);
  result_text ← str_of result;
  print ("Result of addition: " +:+ result_text).

End DecoratorPattern.

(** ** Clients of iterator_pattern.py *)

Module IteratorClients.
Import IteratorPattern.

(** Two cursors over one collection, used in turns: [j] calls on the
    first, [n] on the second, [m] more on the first. *)
Definition two_cursors (c : loc) (j n m : nat)
  : exec heap (bool * list (result pyval) * list (result pyval)
               * list (result pyval)) :=
  cursor1 ← MyCollection.__iter__ c;
  cursor2 ← MyCollection.__iter__ c;
  first ← nexts j cursor1;
  second ← nexts n cursor2;
  third ← nexts m cursor1;
  mret (bool_decide (cursor1 = cursor2), first, second, third).

(** A cursor used for [j] calls, then a second cursor made and used for
    [n] calls, then [m] more calls on the first. *)
Definition second_cursor_later (c : loc) (j n m : nat)
  : exec heap (list (result pyval) * list (result pyval)
               * list (result pyval)) :=
  cursor1 ← MyCollection.__iter__ c;
  first ← nexts j cursor1;
  cursor2 ← MyCollection.__iter__ c;
  second ← nexts n cursor2;
  again ← nexts m cursor1;
  mret (first, second, again).

(** Two collections, and a series of [add_item] calls, each on the
    first ([true]) or on the second ([false]). *)
Definition two_collections (appends : list (bool * pyval))
  : exec heap (loc * loc) :=
  c1 ← MyCollection.__init__;
  c2 ← MyCollection.__init__;
  for_each appends (λ a, MyCollection.add_item (if a.1 then c1 else c2) a.2) ;;
  mret (c1, c2).

(** The items of [appends] that went to the first ([true]) or to the
    second ([false]) collection, in the order of the calls. *)
Definition appended_to (first : bool) (appends : list (bool * pyval))
  : list pyval :=
  snd <$> filter (λ a, a.1 = first) appends.

(** The script prints, so its loops run on a heap and a console. *)
Abbreviation console := (heap * list string)%type.

Definition on_heap {A} (m : exec heap A) : exec console A := λ w,
  let '(h', r) := m w.1 in ((h', w.2), r).

Definition print (line : string) : exec console () :=
  modify (λ w, (w.1, w.2 ++ [line])).

(** The loop of [for item in ...: body(item)] on a cursor: [next] is
    called until it raises [StopIteration].  [fuel] bounds the number
    of [next] calls; the result is [true] when the loop has ended and
    [false] when it is still running after [fuel] calls. *)
Fixpoint for_next (fuel : nat) (cursor : loc) (body : pyval → exec console ())
  : exec console bool :=
  match fuel with
  | O => mret false
  | S fuel' =>
      r ← attempt (on_heap (MyIterator.__next__ cursor));
      match r with
      | Ok item => body item ;; for_next fuel' cursor body
      | Raise StopIteration => mret true
      | Raise e => raise e
      end
  end.

(** [for item in collection: body(item)] *)
Definition for_in (fuel : nat) (collection : loc)
    (body : pyval → exec console ()) : exec console bool :=
  cursor ← on_heap (MyCollection.__iter__ collection);
  for_next fuel cursor body.

(** [for fruit in collection: print(fruit)], as in the script. *)
Definition print_all (fuel : nat) (collection : loc) : exec console bool :=
  for_in fuel collection (λ fruit,
    text ← str_of fruit;
    print text).

(** [for item in collection: collection.add_item(item)] *)
Definition append_while_iterating (fuel : nat) (collection : loc)
  : exec console bool :=
  for_in fuel collection (λ item,
    on_heap (MyCollection.add_item collection item)).

End IteratorClients.

(** ** Clients of observer_pattern.py *)

Module ObserverClients.
Import ObserverPattern.

(** [for v in values: subject.state = v] *)
Definition set_states (self : loc) (values : list pyval) : exec world () :=
  for_each values (Subject.state_setter self).

(** [subject.attach(observer); subject.detach(observer)] *)
Definition attach_then_detach (self observer : loc) : exec world () :=
  Subject.attach self observer ;;
  Subject.detach self observer.

(** [subject = Subject(); before = subject.state; subject.state = v] *)
Definition new_subject_then_set (v : pyval) : exec world (loc * pyval) :=
  subject ← Subject.__init__;
  before ← Subject.state subject;
  Subject.state_setter subject v ;;
  mret (subject, before).

(** Nothing was printed and no [update] was called between [w] and [w']. *)
Definition quiet (w w' : world) : Prop :=
  stdout w' = stdout w ∧ received w' = received w.

End ObserverClients.

(** ** Clients of singleton_pattern.py *)

Module SingletonClients.
Import SingletonPattern.

(** [for _ in range(k): Singleton().increment()] *)
Definition request_and_increment (k : nat) : exec world () :=
  for_each (replicate k ()) (λ _,
    s ← Singleton.__new__;
    Singleton.increment s).

(** [Singleton().value] *)
Definition read_value : exec world pyval :=
  s ← Singleton.__new__;
  getattr_value s.

(** The integer held by the instance's [value]; 0 when there is no
    instance yet. *)
Definition current (w : world) : Z :=
  match _instance w with
  | Some l =>
      match heap w !! l with
      | Some {| value := Some (VInt n) |} => n
      | _ => 0
      end
  | None => 0
  end.

(** Either no instance and no object at all, or the instance, holding
    an integer, as the only object. *)
Definition one_object (w : world) : Prop :=
  (_instance w = None ∧ heap w = ∅) ∨
  (∃ l n, _instance w = Some l ∧
          heap w = {[ l := {| value := Some (VInt n) |} ]}).

End SingletonClients.

(** ** Clients of decorator_pattern.py *)

Module DecoratorClients.
Import DecoratorPattern.

(** [func] under [m] times [@farewell] under [n] times [@greet]. *)
Definition stack {Args R} (n m : nat) (func : Args → exec stdout R)
  : Args → exec stdout R :=
  Nat.iter n greet (Nat.iter m farewell func).

End DecoratorClients.

(** ** strategy_pattern.py *)

Module StrategyPattern.

(** The three concrete classes of [PaymentStrategy]; their instances
    have no attributes. *)
Inductive strategy_class : Type := CreditCard | PayPal | BankTransfer.

(** A [ShoppingCart] instance: a reference to its current strategy. *)
Record ShoppingCartObj : Type := { _payment_strategy : loc }.

Inductive object : Type :=
  | OStrategy (cls : strategy_class)
  | OCart (c : ShoppingCartObj).

Record world : Type := {
  heap : gmap loc object;
  stdout : list string
}.

Definition alloc (o : object) : exec world loc := λ w,
  let l := fresh (dom (heap w)) in
  ({| heap := <[l := o]> (heap w); stdout := stdout w |}, Ok l).

Definition store (l : loc) (o : object) : exec world () :=
  modify (λ w, {| heap := <[l := o]> (heap w); stdout := stdout w |}).

Definition print (line : string) : exec world () :=
  modify (λ w, {| heap := heap w; stdout := stdout w ++ [line] |}).

Definition get_cart (self : loc) : exec world ShoppingCartObj := λ w,
  match heap w !! self with
  | Some (OCart c) => (w, Ok c)
  | _ => (w, Raise AttributeError)
  end.

Module CreditCardPayment.
Definition __init__ : exec world loc := alloc (OStrategy CreditCard).

Definition pay (self : loc) (amount : pyval) : exec world () :=
  amount_text ← str_of amount;
  print ("Paying " +:+ amount_text +:+ " using Credit Card.").
End CreditCardPayment.

Module PayPalPayment.
Definition __init__ : exec world loc := alloc (OStrategy PayPal).

Definition pay (self : loc) (amount : pyval) : exec world () :=
  amount_text ← str_of amount;
  print ("Paying " +:+ amount_text +:+ " using PayPal.").
End PayPalPayment.

Module BankTransferPayment.
Definition __init__ : exec world loc := alloc (OStrategy BankTransfer).

Definition pay (self : loc) (amount : pyval) : exec world () :=
  amount_text ← str_of amount;
  print ("Paying " +:+ amount_text +:+ " using Bank Transfer.").
End BankTransferPayment.

(** [strategy.pay(amount)]: the method of the class of the object that
    [strategy] refers to; an object without [pay] gives
    [AttributeError]. *)
Definition call_pay (strategy : loc) (amount : pyval) : exec world () := λ w,
  match heap w !! strategy with
  | Some (OStrategy CreditCard) => CreditCardPayment.pay strategy amount w
  | Some (OStrategy PayPal) => PayPalPayment.pay strategy amount w
  | Some (OStrategy BankTransfer) => BankTransferPayment.pay strategy amount w
  | _ => (w, Raise AttributeError)
  end.

Module ShoppingCart.
Definition __init__ (payment_strategy : loc) : exec world loc :=
  alloc (OCart {| _payment_strategy := payment_strategy |}).

Definition set_payment_strategy (self payment_strategy : loc)
  : exec world () :=
  _ ← get_cart self;
  store self (OCart {| _payment_strategy := payment_strategy |}).

Definition checkout (self : loc) (amount : pyval) : exec world () :=
  c ← get_cart self;
  call_pay (_payment_strategy c) amount.
End ShoppingCart.

(** The script at the end of the file. *)
Definition usage : exec world () :=
  credit ← CreditCardPayment.__init__;
  cart ← ShoppingCart.__init__ credit;
  ShoppingCart.checkout cart (VInt 100) ;;
  paypal ← PayPalPayment.__init__;
  ShoppingCart.set_payment_strategy cart paypal ;;
  ShoppingCart.checkout cart (VInt 50) ;;
  transfer ← BankTransferPayment.__init__;
  ShoppingCart.set_payment_strategy cart transfer ;;
  ShoppingCart.checkout cart (VInt 200).

Definition empty_world : world := {| heap := ∅; stdout := [] |}.

(** Client code: [for s in strategies: cart.set_payment_strategy(s)],
    then [cart.checkout(amount)]. *)
Definition switch_then_checkout (self : loc) (strategies : list loc)
    (amount : pyval) : exec world () :=
  for_each strategies (ShoppingCart.set_payment_strategy self) ;;
  ShoppingCart.checkout self amount.

(** Client code: [for a in amounts: cart.checkout(a)]. *)
Definition checkouts (self : loc) (amounts : list pyval) : exec world () :=
  for_each amounts (ShoppingCart.checkout self).

(** The line the [pay] of class [cls] prints. *)
Definition pay_line (cls : strategy_class) (amount : pyval) : string :=
  "Paying " +:+ text_of amount +:+ " using " +:+
  match cls with
  | CreditCard => "Credit Card"
  | PayPal => "PayPal"
  | BankTransfer => "Bank Transfer"
  end +:+ ".".

Definition cart_at (h : gmap loc object) (self strategy : loc) : Prop :=
  h !! self = Some (OCart {| _payment_strategy := strategy |}).

Definition strategy_at (h : gmap loc object) (s : loc) (cls : strategy_class)
  : Prop :=
  h !! s = Some (OStrategy cls).

(** A cart, at address 3, paying by credit card (0); a PayPal (1) and
    a bank transfer (2) strategy beside it. *)
Definition cart_world : world :=
  {| heap := {[ 0%nat := OStrategy CreditCard;
                1%nat := OStrategy PayPal;
                2%nat := OStrategy BankTransfer;
                3%nat := OCart {| _payment_strategy := 0 |} ]};
     stdout := [] |}.

End StrategyPattern.

(** ** builder_pattern.py *)

Module BuilderPattern.

(** A [Burger] instance.  The list [toppings] is made by [__init__]
    and reachable through the burger only, so it is kept inside the
    object. *)
Record BurgerObj : Type := {
  buns : pyval;
  patty : pyval;
  cheese : pyval;
  toppings : list pyval
}.

(** The two concrete classes of [BurgerBuilder]. *)
Inductive builder_class : Type := Veggie | Chicken.

(** A builder instance: its class and its attribute [burger]. *)
Record BuilderObj : Type := { class_of : builder_class; burger : loc }.

(** A [Director] instance. *)
Record DirectorObj : Type := { _builder : loc }.

Inductive object : Type :=
  | OBurger (b : BurgerObj)
  | OBuilder (b : BuilderObj)
  | ODirector (d : DirectorObj).

Abbreviation heap := (gmap loc object).

Definition alloc (o : object) : exec heap loc := λ h,
  let l := fresh (dom h) in (<[l := o]> h, Ok l).

Definition store (l : loc) (o : object) : exec heap () :=
  modify (λ h, <[l := o]> h).

Definition deref_burger (l : loc) : exec heap BurgerObj := λ h,
  match h !! l with
  | Some (OBurger b) => (h, Ok b)
  | _ => (h, Raise AttributeError)
  end.

Definition deref_builder (l : loc) : exec heap BuilderObj := λ h,
  match h !! l with
  | Some (OBuilder b) => (h, Ok b)
  | _ => (h, Raise AttributeError)
  end.

Definition deref_director (l : loc) : exec heap DirectorObj := λ h,
  match h !! l with
  | Some (ODirector d) => (h, Ok d)
  | _ => (h, Raise AttributeError)
  end.

(** Truth value of a value, as [if v] tests it. *)
Definition truthy (v : pyval) : bool :=
  match v with
  | VNone => false
  | VInt n => bool_decide (n ≠ 0)
  | VStr s => bool_decide (s ≠ "")
  end.

(** [sep.join(items)]: every item must be a string. *)
Fixpoint str_join (sep : string) (items : list pyval) : result string :=
  match items with
  | [] => Ok ""
  | VStr s :: rest =>
      match rest with
      | [] => Ok s
      | _ :: _ =>
          match str_join sep rest with
          | Ok t => Ok (s +:+ sep +:+ t)
          | Raise e => Raise e
          end
      end
  | _ :: _ => Raise TypeError
  end.

Definition of_result {A} (r : result A) : exec heap A := λ h, (h, r).

(** [burger.buns = v] and the like. *)
Definition set_buns (l : loc) (v : pyval) : exec heap () :=
  b ← deref_burger l;
  store l (OBurger {| buns := v; patty := patty b; cheese := cheese b;
                      toppings := toppings b |}).

Definition set_patty (l : loc) (v : pyval) : exec heap () :=
  b ← deref_burger l;
  store l (OBurger {| buns := buns b; patty := v; cheese := cheese b;
                      toppings := toppings b |}).

Definition set_cheese (l : loc) (v : pyval) : exec heap () :=
  b ← deref_burger l;
  store l (OBurger {| buns := buns b; patty := patty b; cheese := v;
                      toppings := toppings b |}).

(** [burger.toppings.extend(items)] *)
Definition extend_toppings (l : loc) (items : list pyval) : exec heap () :=
  b ← deref_burger l;
  store l (OBurger {| buns := buns b; patty := patty b; cheese := cheese b;
                      toppings := toppings b ++ items |}).

Module Burger.
Definition __init__ : exec heap loc :=
  alloc (OBurger {| buns := VNone; patty := VNone; cheese := VNone;
                    toppings := [] |}).

Definition __str__ (self : loc) : exec heap string :=
  b ← deref_burger self;
  buns_text ← str_of (buns b);
  patty_text ← str_of (patty b);
  cheese_text ← (if truthy (cheese b) then str_of (cheese b) else mret "no");
  toppings_text ←
    match toppings b with
    | [] => mret "no toppings"
    | _ :: _ => of_result (str_join ", " (toppings b))
    end;
  mret ("Burger with " +:+ buns_text +:+ " buns, " +:+
        patty_text +:+ " patty, " +:+ cheese_text +:+
        " cheese, and " +:+ toppings_text +:+ ".").
End Burger.

Module VeggieBurgerBuilder.
Definition __init__ : exec heap loc :=
  burger ← Burger.__init__;
  alloc (OBuilder {| class_of := Veggie; burger := burger |}).

Definition build_buns (self : loc) : exec heap () :=
  b ← deref_builder self;
  set_buns (burger b) (VStr "Sesame Seed").

Definition build_patty (self : loc) : exec heap () :=
  b ← deref_builder self;
  set_patty (burger b) (VStr "Veggie").

Definition build_cheese (self : loc) : exec heap () :=
  b ← deref_builder self;
  set_cheese (burger b) (VStr "Cheddar").

Definition build_toppings (self : loc) : exec heap () :=
  b ← deref_builder self;
  extend_toppings (burger b) [VStr "Lettuce"; VStr "Tomato"; VStr "Onion"].

Definition get_burger (self : loc) : exec heap loc :=
  b ← deref_builder self;
  mret (burger b).
End VeggieBurgerBuilder.

Module ChickenBurgerBuilder.
Definition __init__ : exec heap loc :=
  burger ← Burger.__init__;
  alloc (OBuilder {| class_of := Chicken; burger := burger |}).

Definition build_buns (self : loc) : exec heap () :=
  b ← deref_builder self;
  set_buns (burger b) (VStr "Brioche").

Definition build_patty (self : loc) : exec heap () :=
  b ← deref_builder self;
  set_patty (burger b) (VStr "Chicken").

Definition build_cheese (self : loc) : exec heap () :=
  b ← deref_builder self;
  set_cheese (burger b) (VStr "Swiss").

Definition build_toppings (self : loc) : exec heap () :=
  b ← deref_builder self;
  extend_toppings (burger b) [VStr "Pickles"; VStr "Mayonnaise"].

Definition get_burger (self : loc) : exec heap loc :=
  b ← deref_builder self;
  mret (burger b).
End ChickenBurgerBuilder.

(** [builder.build_buns()] and the like: the method of the builder's
    class. *)
Definition call_build_buns (builder : loc) : exec heap () :=
  b ← deref_builder builder;
  match class_of b with
  | Veggie => VeggieBurgerBuilder.build_buns builder
  | Chicken => ChickenBurgerBuilder.build_buns builder
  end.

Definition call_build_patty (builder : loc) : exec heap () :=
  b ← deref_builder builder;
  match class_of b with
  | Veggie => VeggieBurgerBuilder.build_patty builder
  | Chicken => ChickenBurgerBuilder.build_patty builder
  end.

Definition call_build_cheese (builder : loc) : exec heap () :=
  b ← deref_builder builder;
  match class_of b with
  | Veggie => VeggieBurgerBuilder.build_cheese builder
  | Chicken => ChickenBurgerBuilder.build_cheese builder
  end.

Definition call_build_toppings (builder : loc) : exec heap () :=
  b ← deref_builder builder;
  match class_of b with
  | Veggie => VeggieBurgerBuilder.build_toppings builder
  | Chicken => ChickenBurgerBuilder.build_toppings builder
  end.

Definition call_get_burger (builder : loc) : exec heap loc :=
  b ← deref_builder builder;
  match class_of b with
  | Veggie => VeggieBurgerBuilder.get_burger builder
  | Chicken => ChickenBurgerBuilder.get_burger builder
  end.

Module Director.
Definition __init__ (builder : loc) : exec heap loc :=
  alloc (ODirector {| _builder := builder |}).

Definition construct_burger (self : loc) : exec heap () :=
  d ← deref_director self;
  call_build_buns (_builder d) ;;
  d ← deref_director self;
  call_build_patty (_builder d) ;;
  d ← deref_director self;
  call_build_cheese (_builder d) ;;
  d ← deref_director self;
  call_build_toppings (_builder d).
End Director.

(** [VeggieBurgerBuilder()] or [ChickenBurgerBuilder()]. *)
Definition new_builder (cls : builder_class) : exec heap loc :=
  match cls with
  | Veggie => VeggieBurgerBuilder.__init__
  | Chicken => ChickenBurgerBuilder.__init__
  end.

(** The script's steps for one builder class; it yields the text that
    [str] gives for the burger. *)
Definition build_one (cls : builder_class) : exec heap string :=
  builder ← new_builder cls;
  director ← Director.__init__ builder;
  Director.construct_burger director ;;
  burger ← call_get_burger builder;
  Burger.__str__ burger.

(** The script at the end of the file; it yields the two lines printed. *)
Definition usage : exec heap (list string) :=
  veggie ← build_one Veggie;
  chicken ← build_one Chicken;
  mret ["Veggie Burger: " +:+ veggie; "Chicken Burger: " +:+ chicken].

(** Client code: [for _ in range(k): director.construct_burger()]. *)
Definition construct_times (k : nat) (director : loc) : exec heap () :=
  for_each (replicate k ()) (λ _, Director.construct_burger director).

(** Client code: the burger is asked for before the director runs, and
    again after; the text is taken through the early reference. *)
Definition ask_early (cls : builder_class) : exec heap (bool * string) :=
  builder ← new_builder cls;
  early ← call_get_burger builder;
  director ← Director.__init__ builder;
  Director.construct_burger director ;;
  late ← call_get_burger builder;
  text ← Burger.__str__ early;
  mret (bool_decide (early = late), text).

(** What the build steps of a class write. *)
Definition buns_of (cls : builder_class) : pyval :=
  match cls with Veggie => VStr "Sesame Seed" | Chicken => VStr "Brioche" end.

Definition patty_of (cls : builder_class) : pyval :=
  match cls with Veggie => VStr "Veggie" | Chicken => VStr "Chicken" end.

Definition cheese_of (cls : builder_class) : pyval :=
  match cls with Veggie => VStr "Cheddar" | Chicken => VStr "Swiss" end.

Definition toppings_of (cls : builder_class) : list pyval :=
  match cls with
  | Veggie => [VStr "Lettuce"; VStr "Tomato"; VStr "Onion"]
  | Chicken => [VStr "Pickles"; VStr "Mayonnaise"]
  end.

(** The text of a burger built once, by class. *)
Definition built_text (cls : builder_class) : string :=
  match cls with
  | Veggie => "Burger with Sesame Seed buns, Veggie patty, Cheddar cheese, and Lettuce, Tomato, Onion."
  | Chicken => "Burger with Brioche buns, Chicken patty, Swiss cheese, and Pickles, Mayonnaise."
  end.

(** Client code: a new builder's burger, described before any build
    step has run. *)
Definition describe_unbuilt (cls : builder_class) : exec heap string :=
  builder ← new_builder cls;
  burger ← call_get_burger builder;
  Burger.__str__ burger.

(** The burger [bg] after the four build steps of class [cls] have run
    on it [k] times. *)
Definition after_builds (cls : builder_class) (bg : BurgerObj) (k : nat)
  : BurgerObj :=
  match k with
  | O => bg
  | S _ => {| buns := buns_of cls; patty := patty_of cls;
              cheese := cheese_of cls;
              toppings := toppings bg ++ concat (replicate k (toppings_of cls)) |}
  end.

Definition director_at (h : heap) (d builder : loc) : Prop :=
  h !! d = Some (ODirector {| _builder := builder |}).

Definition builder_at (h : heap) (b : loc) (cls : builder_class) (bl : loc)
  : Prop :=
  h !! b = Some (OBuilder {| class_of := cls; burger := bl |}).

(** A heap with a new burger (0), a veggie builder for it (1) and a
    director for the builder (2). *)
Definition kitchen : heap :=
  {[ 0%nat := OBurger {| buns := VNone; patty := VNone; cheese := VNone;
                         toppings := [] |};
     1%nat := OBuilder {| class_of := Veggie; burger := 0 |};
     2%nat := ODirector {| _builder := 1 |} ]}.

End BuilderPattern.

(** ** factory_method_pattern.py *)

Module FactoryMethodPattern.

(** The concrete classes of [Product] and of [Creator]; their
    instances have no attributes. *)
Inductive product_class : Type := ProductA | ProductB.
Inductive creator_class : Type := CreatorA | CreatorB.

Inductive object : Type :=
  | OProduct (cls : product_class)
  | OCreator (cls : creator_class).

Record world : Type := {
  heap : gmap loc object;
  stdout : list string
}.

Definition alloc (o : object) : exec world loc := λ w,
  let l := fresh (dom (heap w)) in
  ({| heap := <[l := o]> (heap w); stdout := stdout w |}, Ok l).

Definition print (line : string) : exec world () :=
  modify (λ w, {| heap := heap w; stdout := stdout w ++ [line] |}).

Module ConcreteProductA.
Definition __init__ : exec world loc := alloc (OProduct ProductA).

Definition operation (self : loc) : exec world string :=
  mret "ConcreteProductA operation".
End ConcreteProductA.

Module ConcreteProductB.
Definition __init__ : exec world loc := alloc (OProduct ProductB).

Definition operation (self : loc) : exec world string :=
  mret "ConcreteProductB operation".
End ConcreteProductB.

(** [product.operation()]: the method of the object's class. *)
Definition call_operation (product : loc) : exec world string := λ w,
  match heap w !! product with
  | Some (OProduct ProductA) => ConcreteProductA.operation product w
  | Some (OProduct ProductB) => ConcreteProductB.operation product w
  | _ => (w, Raise AttributeError)
  end.

Module ConcreteCreatorA.
Definition __init__ : exec world loc := alloc (OCreator CreatorA).

Definition factory_method (self : loc) : exec world loc :=
  ConcreteProductA.__init__.
End ConcreteCreatorA.

Module ConcreteCreatorB.
Definition __init__ : exec world loc := alloc (OCreator CreatorB).

Definition factory_method (self : loc) : exec world loc :=
  ConcreteProductB.__init__.
End ConcreteCreatorB.

(** [self.factory_method()]: the override of the creator's class. *)
Definition call_factory_method (creator : loc) : exec world loc := λ w,
  match heap w !! creator with
  | Some (OCreator CreatorA) => ConcreteCreatorA.factory_method creator w
  | Some (OCreator CreatorB) => ConcreteCreatorB.factory_method creator w
  | _ => (w, Raise AttributeError)
  end.

Module Creator.
(** The inherited method, the same for every creator. *)
Definition some_operation (self : loc) : exec world string :=
  product ← call_factory_method self;
  text ← call_operation product;
  mret ("Creator: The same creator's code has just worked with " +:+ text).
End Creator.

Definition newline : string := String (Ascii.ascii_of_nat 10) "".

Definition client_code (creator : loc) : exec world () :=
  text ← Creator.some_operation creator;
  print ("Client: I'm not aware of the creator's class, but it still works."
         +:+ newline +:+ text).

(** The script at the end of the file. *)
Definition usage : exec world () :=
  print "App: Launched with the ConcreteCreatorA." ;;
  a ← ConcreteCreatorA.__init__;
  client_code a ;;
  print (newline +:+ "App: Launched with the ConcreteCreatorB.") ;;
  b ← ConcreteCreatorB.__init__;
  client_code b.

Definition empty_world : world := {| heap := ∅; stdout := [] |}.

(** Client code: [[creator.some_operation() for _ in range(n)]]. *)
Fixpoint operate_times (n : nat) (creator : loc) : exec world (list string) :=
  match n with
  | O => mret []
  | S n' =>
      text ← Creator.some_operation creator;
      texts ← operate_times n' creator;
      mret (text :: texts)
  end.

(** The product class a creator class makes, and the text of its
    [operation]. *)
Definition product_of (k : creator_class) : product_class :=
  match k with CreatorA => ProductA | CreatorB => ProductB end.

Definition operation_text (p : product_class) : string :=
  match p with
  | ProductA => "ConcreteProductA operation"
  | ProductB => "ConcreteProductB operation"
  end.

Definition some_operation_text (k : creator_class) : string :=
  "Creator: The same creator's code has just worked with "
  +:+ operation_text (product_of k).

(** A world with one creator of each class, at addresses 0 and 1. *)
Definition two_creators : world :=
  {| heap := {[ 0%nat := OCreator CreatorA; 1%nat := OCreator CreatorB ]};
     stdout := [] |}.

End FactoryMethodPattern.

(** * Properties *)

(** ** The execution monad *)

Section exec_lemmas.
Context {W : Type}.

Lemma bind_ok {A B} (m : exec W A) (f : A → exec W B) w w' a :
  m w = (w', Ok a) → (m ≫= f) w = f a w'.
Proof. intros H. unfold mbind, exec_bind. by rewrite H. Qed.

Lemma bind_raise {A B} (m : exec W A) (f : A → exec W B) w w' e :
  m w = (w', Raise e) → (m ≫= f) w = (w', Raise e).
Proof. intros H. unfold mbind, exec_bind. by rewrite H. Qed.

Lemma attempt_run {A} (m : exec W A) w w' r :
  m w = (w', r) → attempt m w = (w', Ok r).
Proof. intros H. unfold attempt. by rewrite H. Qed.

Lemma for_each_app {A} (xs ys : list A) (body : A → exec W ()) w w' :
  for_each xs body w = (w', Ok ()) →
  for_each (xs ++ ys) body w = for_each ys body w'.
Proof.
  revert w. induction xs as [|x xs IH]; intros w H; simpl in *.
  - by inversion H.
  - unfold mbind, exec_bind in *.
    destruct (body x w) as [w1 [[]|e]]; [by apply IH | done].
Qed.
End exec_lemmas.

Lemma printable_text (v : pyval) : printable v → py_str v = Ok (text_of v).
Proof.
  unfold printable, text_of. by destruct (py_str v).
Qed.

Lemma str_of_run {W} (v : pyval) (w : W) :
  printable v → str_of v w = (w, Ok (text_of v)).
Proof. intros Hp. unfold str_of. by rewrite printable_text. Qed.

Lemma int_str_limit_pos : 0 < int_str_limit.
Proof. unfold int_str_limit. apply Z.pow_pos_nonneg; lia. Qed.

Lemma py_str_huge : py_str huge = Raise ValueError.
Proof.
  unfold huge, py_str. pose proof int_str_limit_pos.
  destruct (decide (Z.abs int_str_limit < int_str_limit)); [lia|done].
Qed.

Lemma str_of_raise {W} (v : pyval) (e : exn) (w : W) :
  py_str v = Raise e → str_of v w = (w, Raise e).
Proof. intros Hp. unfold str_of. by rewrite Hp. Qed.

Ltac solve_printable :=
  repeat (apply Forall_cons; split; [vm_compute; reflexivity|]);
  first [apply Forall_nil_2 | vm_compute; reflexivity].

(** ** iterator_pattern.py *)

Section iterator_props.
Import IteratorPattern.

Lemma alloc_fresh (h : heap) o :
  h !! fresh (dom h) = None ∧
  alloc o h = (<[fresh (dom h) := o]> h, Ok (fresh (dom h))).
Proof.
  split; [|done]. apply (not_elem_of_dom (D:=gset nat)), is_fresh.
Qed.

Lemma next_value (h : heap) cur l i xs x :
  cursor_at h cur l i → h !! l = Some (OList xs) → xs !! i = Some x →
  MyIterator.__next__ cur h =
    (<[cur := OIterator {| it_items := l; it_index := i + 1 |}]> h, Ok x).
Proof.
  intros Hc Hl Hx. unfold MyIterator.__next__.
  erewrite bind_ok; [|by unfold get_iterator; rewrite Hc].
  erewrite bind_ok; [|by unfold get_list; simpl; rewrite Hl].
  simpl. apply lookup_lt_Some in Hx as Hlt.
  rewrite decide_True by done.
  unfold list_getitem. rewrite Hx. done.
Qed.

Lemma next_exhausted (h : heap) cur l i xs :
  cursor_at h cur l i → h !! l = Some (OList xs) → (length xs ≤ i)%nat →
  MyIterator.__next__ cur h = (h, Raise StopIteration).
Proof.
  intros Hc Hl Hx. unfold MyIterator.__next__.
  erewrite bind_ok; [|by unfold get_iterator; rewrite Hc].
  erewrite bind_ok; [|by unfold get_list; simpl; rewrite Hl].
  simpl. rewrite decide_False by lia. done.
Qed.

Lemma outcomes_value xs i n x :
  xs !! i = Some x → outcomes xs i (S n) = Ok x :: outcomes xs (i + 1) n.
Proof.
  intros Hx. apply lookup_lt_Some in Hx as Hlt. unfold outcomes.
  erewrite drop_S by done. rewrite Nat.add_1_r. simpl.
  replace (S n - (length xs - i))%nat with (n - (length xs - S i))%nat by lia.
  done.
Qed.

Lemma outcomes_exhausted xs i n :
  (length xs ≤ i)%nat →
  outcomes xs i (S n) = Raise StopIteration :: outcomes xs i n.
Proof.
  intros Hge. unfold outcomes. rewrite drop_ge by done.
  rewrite !take_nil. simpl.
  replace (length xs - i)%nat with 0%nat by lia.
  by rewrite (Nat.sub_0_r n).
Qed.

Lemma nexts_outcomes n : ∀ (h : heap) cur l i xs,
  cursor_at h cur l i → h !! l = Some (OList xs) →
  ∃ h', nexts n cur h = (h', Ok (outcomes xs i n)) ∧
        cursor_at h' cur l (i + n `min` (length xs - i)) ∧
        ∀ l', l' ≠ cur → h' !! l' = h !! l'.
Proof.
  induction n as [|n IH]; intros h cur l i xs Hc Hl.
  - exists h. split; [by unfold outcomes; rewrite take_0|].
    split; [|done]. by rewrite Nat.add_0_r.
  - assert (cur ≠ l) as Hne by (intros ->; unfold cursor_at in Hc; congruence).
    destruct (xs !! i) as [x|] eqn:Hx.
    + pose proof (next_value _ _ _ _ _ _ Hc Hl Hx) as Hn.
      apply lookup_lt_Some in Hx as Hlt.
      set (h1 := <[cur := OIterator {| it_items := l; it_index := i + 1 |}]> h) in *.
      destruct (IH h1 cur l (i + 1)%nat xs) as (h' & Hr & Hc' & Hfr).
      { unfold cursor_at, h1. by rewrite lookup_insert_eq. }
      { unfold h1. by rewrite lookup_insert_ne. }
      exists h'. split; [|split].
      * simpl. erewrite bind_ok; [|by apply attempt_run].
        erewrite bind_ok; [|done]. unfold mret, exec_ret.
        by erewrite outcomes_value.
      * replace (i + S n `min` (length xs - i))%nat
          with (i + 1 + n `min` (length xs - (i + 1)))%nat by lia. done.
      * intros l' Hl'. rewrite Hfr by done. unfold h1.
        by rewrite lookup_insert_ne.
    + apply lookup_ge_None in Hx as Hge.
      pose proof (next_exhausted _ _ _ _ _ Hc Hl Hge) as Hn.
      destruct (IH h cur l i xs Hc Hl) as (h' & Hr & Hc' & Hfr).
      exists h'. split; [|split].
      * simpl. erewrite bind_ok; [|by apply attempt_run].
        erewrite bind_ok; [|done]. unfold mret, exec_ret.
        by rewrite outcomes_exhausted.
      * replace (i + S n `min` (length xs - i))%nat
          with (i + n `min` (length xs - i))%nat by lia. done.
      * done.
Qed.

(** [MyCollection()] gives a collection over a new, empty list and
    leaves every object that was there as it was. *)
Lemma collection_init (h : heap) :
  ∃ h' c l, MyCollection.__init__ h = (h', Ok c) ∧
            collection_at h' c l ∧ h' !! l = Some (OList []) ∧
            h !! c = None ∧ h !! l = None.
Proof.
  unfold MyCollection.__init__.
  destruct (alloc_fresh h (OList [])) as [Hf1 Ha1].
  set (l := fresh (dom h)) in *. set (h1 := <[l := OList []]> h) in *.
  destruct (alloc_fresh h1 (OCollection {| coll_items := l |})) as [Hf2 Ha2].
  set (c := fresh (dom h1)) in *.
  assert (c ≠ l) as Hne.
  { intros Heq. rewrite Heq in Hf2. unfold h1 in Hf2.
    by rewrite lookup_insert_eq in Hf2. }
  assert (h !! c = None) as Hfc.
  { unfold h1 in Hf2. by rewrite lookup_insert_ne in Hf2. }
  eexists _, c, l. split; [|split; [|split]].
  - erewrite bind_ok by exact Ha1. exact Ha2.
  - unfold collection_at. by rewrite lookup_insert_eq.
  - rewrite lookup_insert_ne by done. unfold h1. by rewrite lookup_insert_eq.
  - done.
Qed.

(** [add_item] appends to the collection's list, and touches nothing else. *)
Lemma add_item_list (h : heap) c l xs item :
  collection_at h c l → h !! l = Some (OList xs) →
  MyCollection.add_item c item h = (<[l := OList (xs ++ [item])]> h, Ok ()).
Proof.
  intros Hc Hl. unfold MyCollection.add_item.
  erewrite bind_ok; [|by unfold get_collection; rewrite Hc].
  erewrite bind_ok; [|by unfold get_list; simpl; rewrite Hl].
  done.
Qed.

Lemma add_items_list ys : ∀ (h : heap) c l xs,
  collection_at h c l → h !! l = Some (OList xs) →
  ∃ h', add_items c ys h = (h', Ok ()) ∧
        h' !! l = Some (OList (xs ++ ys)) ∧
        ∀ l', l' ≠ l → h' !! l' = h !! l'.
Proof.
  induction ys as [|y ys IH]; intros h c l xs Hc Hl.
  - exists h. rewrite app_nil_r. done.
  - assert (c ≠ l) by (intros ->; unfold collection_at in Hc; congruence).
    pose proof (add_item_list h c l xs y Hc Hl) as Hr1.
    set (h1 := <[l := OList (xs ++ [y])]> h) in *.
    destruct (IH h1 c l (xs ++ [y])) as (h2 & Hr2 & Hl2 & Hf2).
    { unfold collection_at, h1. by rewrite lookup_insert_ne. }
    { unfold h1. by rewrite lookup_insert_eq. }
    exists h2. split; [|split].
    + unfold add_items in *. simpl. by erewrite bind_ok.
    + by rewrite <- app_assoc in Hl2.
    + intros l' Hl'. rewrite Hf2 by done. unfold h1.
      by rewrite lookup_insert_ne.
Qed.

(** [iter(c)] gives a new cursor at position 0 that holds the
    collection's own list, not a copy of it. *)
Lemma iter_cursor (h : heap) c l :
  collection_at h c l →
  ∃ cur, MyCollection.__iter__ c h =
           (<[cur := OIterator {| it_items := l; it_index := 0 |}]> h, Ok cur) ∧
         h !! cur = None.
Proof.
  intros Hc. unfold MyCollection.__iter__.
  destruct (alloc_fresh h (OIterator {| it_items := l; it_index := 0 |}))
    as [Hf Ha].
  eexists. split; [|exact Hf].
  erewrite bind_ok; [|by unfold get_collection; rewrite Hc]. exact Ha.
Qed.

Lemma contents_unfold (h : heap) c xs :
  contents h c xs ↔ ∃ l, collection_at h c l ∧ h !! l = Some (OList xs).
Proof.
  unfold contents, collection_at. split.
  - intros ([l] & Hc & Hl). by exists l.
  - intros (l & Hc & Hl). by exists {| coll_items := l |}.
Qed.

(** A cursor made after the appends: what [n] calls produce. *)
Lemma fresh_cursor_run_outcomes (h : heap) xs n :
  ∃ h', fresh_cursor_run xs n h = (h', Ok (outcomes xs 0 n)).
Proof.
  destruct (collection_init h) as (h1 & c & l & Hr1 & Hc1 & Hl1 & _ & _).
  destruct (add_items_list xs h1 c l [] Hc1 Hl1) as (h2 & Hr2 & Hl2 & Hf2).
  assert (c ≠ l) by (intros ->; unfold collection_at in Hc1; congruence).
  assert (collection_at h2 c l) as Hc2.
  { unfold collection_at. by rewrite Hf2. }
  destruct (iter_cursor h2 c l Hc2) as (cur & Hr3 & Hf3).
  set (h3 := <[cur := _]> h2) in *.
  assert (cur ≠ l) by (intros ->; congruence).
  destruct (nexts_outcomes n h3 cur l 0%nat xs) as (h4 & Hr4 & _).
  { unfold cursor_at, h3. by rewrite lookup_insert_eq. }
  { unfold h3. by rewrite lookup_insert_ne. }
  exists h4. unfold fresh_cursor_run.
  erewrite bind_ok by exact Hr1. erewrite bind_ok by exact Hr2.
  erewrite bind_ok by exact Hr3. exact Hr4.
Qed.

Lemma outcomes_all xs k :
  outcomes xs 0 (length xs + k) =
  (Ok <$> xs) ++ replicate k (Raise StopIteration).
Proof.
  unfold outcomes. rewrite drop_0, Nat.sub_0_r.
  rewrite take_ge by lia. f_equal. f_equal. lia.
Qed.

(** C2.  A new collection with the [N] items of [xs] appended, and a
    fresh cursor over it: [N + k] calls of [__next__] give [N] values
    followed by [k] times [StopIteration].  So exactly [N] productions
    succeed, the call after them signals exhaustion, and so does every
    later call on the unmodified collection. *)
Theorem iterator_exhaustion (h : heap) (xs : list pyval) (k : nat) :
  ∃ h' vs,
    fresh_cursor_run xs (length xs + k) h =
      (h', Ok ((Ok <$> vs) ++ replicate k (Raise StopIteration))) ∧
    length vs = length xs.
Proof.
  destruct (fresh_cursor_run_outcomes h xs (length xs + k)) as [h' Hr].
  exists h', xs. by rewrite Hr, outcomes_all.
Qed.

(** C3.  A new collection with the items [xs] appended in that order,
    and a fresh cursor over it: as many calls of [__next__] as there are
    items return exactly [xs], element by element, in append order,
    repeated items included. *)
Theorem iterator_append_order (h : heap) (xs : list pyval) :
  ∃ h', fresh_cursor_run xs (length xs) h = (h', Ok (Ok <$> xs)).
Proof.
  destruct (fresh_cursor_run_outcomes h xs (length xs + 0)) as [h' Hr].
  exists h'. rewrite outcomes_all, Nat.add_0_r in Hr. simpl in Hr.
  by rewrite app_nil_r in Hr.
Qed.

(** A cursor, [j] calls, then [ys] appended, then [n] calls. *)
Lemma append_after_iter_outcomes (h : heap) (c : loc) (xs ys : list pyval)
    (j n : nat) :
  contents h c xs →
  ∃ h', append_after_iter c j ys n h =
          (h', Ok (outcomes xs 0 j,
                   outcomes (xs ++ ys) (j `min` length xs) n)).
Proof.
  intros (l & Hc & Hl)%contents_unfold.
  assert (c ≠ l) by (intros ->; unfold collection_at in Hc; congruence).
  destruct (iter_cursor h c l Hc) as (cur & Hr1 & Hf1).
  set (h1 := <[cur := _]> h) in *.
  assert (cur ≠ l) by (intros ->; congruence).
  assert (cur ≠ c) by (intros ->; unfold collection_at in Hc; congruence).
  destruct (nexts_outcomes j h1 cur l 0%nat xs) as (h2 & Hr2 & Hc2 & Hf2).
  { unfold cursor_at, h1. by rewrite lookup_insert_eq. }
  { unfold h1. by rewrite lookup_insert_ne. }
  destruct (add_items_list ys h2 c l xs) as (h3 & Hr3 & Hl3 & Hf3).
  { unfold collection_at. rewrite Hf2 by done. unfold h1.
    by rewrite lookup_insert_ne. }
  { rewrite Hf2 by done. unfold h1. by rewrite lookup_insert_ne. }
  destruct (nexts_outcomes n h3 cur l (j `min` length xs)%nat (xs ++ ys))
    as (h4 & Hr4 & _).
  { unfold cursor_at. rewrite Hf3 by done.
    rewrite Nat.sub_0_r in Hc2. exact Hc2. }
  { done. }
  exists h4. unfold append_after_iter.
  erewrite bind_ok by exact Hr1. erewrite bind_ok by exact Hr2.
  erewrite bind_ok by exact Hr3. erewrite bind_ok by exact Hr4. done.
Qed.
(** C1, as the code has it.  Each call of [__next__] reads the
    collection's list as it is at the time of the call.  A cursor made
    when the collection holds [xs] produces, in [j] calls, what [xs]
    gives from position 0; when [ys] is appended then, [n] further
    calls go on from the position reached, through [xs ++ ys]: the
    appended items are produced, also after the cursor had signalled
    exhaustion.  In particular, when [ys] is appended right after the
    cursor is made, the cursor produces all of [xs ++ ys] before it
    signals exhaustion. *)
Theorem cursor_reads_live_list (h : heap) (c : loc) (xs ys : list pyval)
    (j n k : nat) :
  contents h c xs →
  (∃ h', append_after_iter c j ys n h =
           (h', Ok (outcomes xs 0 j,
                    outcomes (xs ++ ys) (j `min` length xs) n))) ∧
  (∃ h', append_after_iter c 0 ys (length (xs ++ ys) + k) h =
           (h', Ok ([], (Ok <$> xs ++ ys) ++
                        replicate k (Raise StopIteration)))).
Proof.
  intros Hc. split; [by apply append_after_iter_outcomes|].
  destruct (append_after_iter_outcomes h c xs ys 0 (length (xs ++ ys) + k) Hc)
    as [h' Hr].
  exists h'. by rewrite Hr, outcomes_all.
Qed.

Lemma apple_heap_contents : contents apple_heap 1 [VStr "Apple"].
Proof. exists {| coll_items := 0 |}. split; vm_compute; reflexivity. Qed.

Lemma cursor_reads_live_list_witness :
  contents apple_heap 1 [VStr "Apple"] ∧
  (∃ h', append_after_iter 1 2 [VStr "Banana"] 2 apple_heap =
           (h', Ok (outcomes [VStr "Apple"] 0 2,
                    outcomes ([VStr "Apple"] ++ [VStr "Banana"])
                             (2 `min` length [VStr "Apple"]) 2))) ∧
  (∃ h', append_after_iter 1 0 [VStr "Banana"]
           (length ([VStr "Apple"] ++ [VStr "Banana"]) + 1) apple_heap =
           (h', Ok ([], (Ok <$> [VStr "Apple"] ++ [VStr "Banana"]) ++
                        replicate 1 (Raise StopIteration)))).
Proof.
  split.
  - exact apple_heap_contents.
  - exact (cursor_reads_live_list apple_heap 1 [VStr "Apple"]
             [VStr "Banana"] 2 2 1 apple_heap_contents).
Defined.

(** C1 as the spec words it fails: a collection holding ["Apple"], a
    cursor over it, then ["Banana"] appended.  Two calls of [__next__]
    give ["Apple"] and ["Banana"]; without the append the second call
    signals exhaustion. *)
Lemma later_append_is_seen :
  contents apple_heap 1 [VStr "Apple"] ∧
  (append_after_iter 1 0 [VStr "Banana"] 2 apple_heap).2 =
    Ok ([], [Ok (VStr "Apple"); Ok (VStr "Banana")]) ∧
  (append_after_iter 1 0 [] 2 apple_heap).2 =
    Ok ([], [Ok (VStr "Apple"); Raise StopIteration]) ∧
  ¬ appends_unseen apple_heap 1 [VStr "Banana"] 2.
Proof.
  split; [exact apple_heap_contents|].
  split; [vm_compute; reflexivity|].
  split; [vm_compute; reflexivity|].
  unfold appends_unseen. vm_compute. discriminate.
Qed.
End iterator_props.

(** ** observer_pattern.py *)

Section observer_props.
Import ObserverPattern.

Lemma list_remove_first (o : loc) (l1 l2 : list loc) :
  o ∉ l1 → list_remove o (l1 ++ o :: l2) = Some (l1 ++ l2).
Proof.
  induction l1 as [|y l1 IH]; intros Hn; simpl.
  - by rewrite decide_True.
  - apply not_elem_of_cons in Hn as [Hne Hn].
    rewrite decide_False by done. by rewrite IH.
Qed.

Lemma list_remove_absent (o : loc) (l : list loc) :
  o ∉ l → list_remove o l = None.
Proof.
  induction l as [|y l IH]; intros Hn; simpl; [done|].
  apply not_elem_of_cons in Hn as [Hne Hn].
  rewrite decide_False by done. by rewrite IH.
Qed.

Lemma deliveries_app (o : loc) (xs ys : list (loc * pyval)) :
  deliveries o (xs ++ ys) = deliveries o xs ++ deliveries o ys.
Proof. unfold deliveries. by rewrite filter_app, fmap_app. Qed.

Lemma deliveries_broadcast (o : loc) (v : pyval) (obs : list loc) :
  deliveries o ((λ x, (x, v)) <$> obs) = replicate (registrations o obs) v.
Proof.
  unfold deliveries, registrations.
  induction obs as [|x obs IH]; [done|].
  rewrite fmap_cons, !filter_cons. simpl.
  destruct (decide (x = o)); simpl; by f_equal.
Qed.

Lemma registrations_app (o : loc) (xs ys : list loc) :
  registrations o (xs ++ ys) = (registrations o xs + registrations o ys)%nat.
Proof. unfold registrations. by rewrite filter_app, length_app. Qed.

Lemma registrations_replicate (o : loc) (k : nat) :
  registrations o (replicate k o) = k.
Proof.
  unfold registrations. induction k as [|k IH]; [done|].
  simpl. rewrite filter_cons, decide_True by done. simpl. by rewrite IH.
Qed.

Lemma registrations_absent (o : loc) (xs : list loc) :
  o ∉ xs → registrations o xs = 0%nat.
Proof.
  unfold registrations. induction xs as [|x xs IH]; intros Hn; [done|].
  apply not_elem_of_cons in Hn as [Hne Hn].
  rewrite filter_cons, decide_False by done. by apply IH.
Qed.

Lemma new_calls_app (w w' : world) (calls : list (loc * pyval)) :
  received w' = received w ++ calls → new_calls w w' = calls.
Proof. intros H. unfold new_calls. rewrite H. by rewrite drop_app_length. Qed.

(** One call of [update] on an [Observer]: one line, one recorded call. *)
Lemma update_run (w : world) (o : loc) (ob : ObserverObj) (st : pyval) :
  heap w !! o = Some (OObserver ob) →
  printable (name ob) → printable st →
  Observer.update o st w =
    ({| heap := heap w;
        stdout := stdout w ++ [update_line (name ob) st];
        received := received w ++ [(o, st)] |}, Ok ()).
Proof.
  intros Ho Hn Hst. unfold Observer.update.
  erewrite bind_ok; [|by unfold get_observer; rewrite Ho].
  erewrite bind_ok by reflexivity.
  erewrite bind_ok by (by apply str_of_run).
  erewrite bind_ok by (by apply str_of_run).
  done.
Qed.


Lemma can_print_intro (h : gmap loc object) (v : pyval) (obs : list loc) :
  names_printable h obs → printable v → can_print h v obs.
Proof.
  intros Hn Hv. eapply Forall_impl; [exact Hn|]. by intros o Ho.
Qed.

(** The loop of [_notify], over any part [obs] of the list. *)
Lemma notify_loop (self : loc) (all : list loc) (st : pyval) (obs : list loc) :
  ∀ w, subject_at (heap w) self all st → observers_ok (heap w) obs →
  can_print (heap w) st obs →
  for_each obs (λ observer,
      s' ← get_subject self; Observer.update observer (_state s')) w =
    ({| heap := heap w;
        stdout := stdout w ++ ((λ o, update_line (name_of (heap w) o) st) <$> obs);
        received := received w ++ ((λ o, (o, st)) <$> obs) |}, Ok ()).
Proof.
  induction obs as [|o obs IH]; intros w Hs Hok Hp.
  - simpl. rewrite !app_nil_r. by destruct w.
  - apply Forall_cons in Hok as [[ob Ho] Hok].
    apply Forall_cons in Hp as [[Hpn Hpv] Hp].
    unfold name_of in Hpn. rewrite Ho in Hpn. simpl.
    erewrite bind_ok.
    2:{ erewrite bind_ok; [|by unfold get_subject; rewrite Hs].
        simpl. by apply update_run. }
    rewrite IH by done. simpl.
    unfold name_of at 2. rewrite Ho.
    by rewrite <- !app_assoc.
Qed.

Lemma notify_run (w : world) (self : loc) (obs : list loc) (st : pyval) :
  subject_at (heap w) self obs st → observers_ok (heap w) obs →
  can_print (heap w) st obs →
  Subject._notify self w =
    ({| heap := heap w;
        stdout := stdout w ++ ((λ o, update_line (name_of (heap w) o) st) <$> obs);
        received := received w ++ ((λ o, (o, st)) <$> obs) |}, Ok ()).
Proof.
  intros Hs Hok Hp. unfold Subject._notify.
  erewrite bind_ok; [|by unfold get_subject; rewrite Hs].
  simpl. by apply (notify_loop self obs st obs).
Qed.

Lemma observers_ok_insert (h : gmap loc object) self s s' obs :
  h !! self = Some (OSubject s) →
  observers_ok h obs → observers_ok (<[self := OSubject s']> h) obs.
Proof.
  intros Hs Hok. eapply Forall_impl; [exact Hok|].
  intros o [ob Ho]. exists ob. rewrite lookup_insert_ne; [done|].
  intros <-. congruence.
Qed.

Lemma name_of_insert (h : gmap loc object) self s s' o :
  h !! self = Some (OSubject s) →
  name_of (<[self := OSubject s']> h) o = name_of h o.
Proof.
  intros Hs. unfold name_of. destruct (decide (self = o)) as [<-|Hne].
  - by rewrite lookup_insert_eq, Hs.
  - by rewrite lookup_insert_ne.
Qed.

Lemma can_print_insert (h : gmap loc object) self s s' v obs :
  h !! self = Some (OSubject s) →
  can_print h v obs → can_print (<[self := OSubject s']> h) v obs.
Proof.
  intros Hs Hp. eapply Forall_impl; [exact Hp|].
  intros o Ho. simpl in *. by erewrite name_of_insert.
Qed.

Lemma names_printable_insert (h : gmap loc object) self s s' obs :
  h !! self = Some (OSubject s) →
  names_printable h obs → names_printable (<[self := OSubject s']> h) obs.
Proof.
  intros Hs Hp. eapply Forall_impl; [exact Hp|].
  intros o Ho. simpl in *. by erewrite name_of_insert.
Qed.

(** The setter: the state is stored, then every registration in the
    list is served once, first attached first. *)
Lemma state_setter_run (w : world) (self : loc) (obs : list loc) (st v : pyval) :
  subject_at (heap w) self obs st → observers_ok (heap w) obs →
  can_print (heap w) v obs →
  Subject.state_setter self v w =
    ({| heap := <[self := OSubject {| _observers := obs; _state := v |}]> (heap w);
        stdout := stdout w ++ ((λ o, update_line (name_of (heap w) o) v) <$> obs);
        received := received w ++ ((λ o, (o, v)) <$> obs) |}, Ok ()).
Proof.
  intros Hs Hok Hp. unfold Subject.state_setter.
  erewrite bind_ok; [|by unfold get_subject; rewrite Hs].
  erewrite bind_ok; [|done]. simpl.
  erewrite notify_run.
  - simpl. do 3 f_equal. apply list_fmap_ext. intros _ o _.
    by erewrite name_of_insert.
  - unfold subject_at. simpl. by rewrite lookup_insert_eq.
  - simpl. by eapply observers_ok_insert.
  - simpl. by eapply can_print_insert.
Qed.


Lemma attach_run (w : world) (self o : loc) (obs : list loc) (st : pyval) :
  subject_at (heap w) self obs st →
  Subject.attach self o w =
    ({| heap := <[self := OSubject {| _observers := obs ++ [o];
                                      _state := st |}]> (heap w);
        stdout := stdout w; received := received w |}, Ok ()).
Proof.
  intros Hs. unfold Subject.attach.
  erewrite bind_ok; [|by unfold get_subject; rewrite Hs]. done.
Qed.

Lemma detach_run (w : world) (self o : loc) (l1 l2 : list loc) (st : pyval) :
  subject_at (heap w) self (l1 ++ o :: l2) st → o ∉ l1 →
  Subject.detach self o w =
    ({| heap := <[self := OSubject {| _observers := l1 ++ l2;
                                      _state := st |}]> (heap w);
        stdout := stdout w; received := received w |}, Ok ()).
Proof.
  intros Hs Hn. unfold Subject.detach.
  erewrite bind_ok; [|by unfold get_subject; rewrite Hs]. simpl.
  by rewrite list_remove_first.
Qed.


Lemma registrations_NoDup (o : loc) (obs : list loc) :
  NoDup obs → o ∈ obs → registrations o obs = 1%nat.
Proof.
  intros Hnd (l1 & l2 & ->)%list_elem_of_split.
  apply NoDup_app in Hnd as (_ & Hd & [Hn2 _]%NoDup_cons).
  rewrite registrations_app. change (o :: l2) with (replicate 1 o ++ l2).
  rewrite registrations_app, (registrations_replicate o 1).
  rewrite !registrations_absent; [done|done|].
  intros Hin. eapply Hd; [exact Hin|]. by left.
Qed.

Ltac solve_observers_ok :=
  repeat (apply Forall_cons; split; [eexists; vm_compute; reflexivity|]);
  apply Forall_nil_2.

(** C4, as the code has it.  Setting the state of a subject whose
    subscribers are [Observer] instances, to a value that [update] can
    print under names it can print, stores the value and then calls
    [update], with the new value, once for every registration in the
    subject's list, in attachment order: a subscriber receives the
    value as many times as it is attached, so exactly once when no
    subscriber is attached twice.  Afterwards the subject's state is
    the value set, and the list is as before. *)
Theorem state_setter_notifies (w : world) (self : loc) (obs : list loc)
    (st v : pyval) :
  subject_at (heap w) self obs st → observers_ok (heap w) obs →
  names_printable (heap w) obs → printable v →
  ∃ w', Subject.state_setter self v w = (w', Ok ()) ∧
        subject_at (heap w') self obs v ∧
        Subject.state self w' = (w', Ok v) ∧
        new_calls w w' = (λ o, (o, v)) <$> obs ∧
        stdout w' =
          stdout w ++ ((λ o, update_line (name_of (heap w) o) v) <$> obs) ∧
        (∀ o, deliveries o (new_calls w w') =
              replicate (registrations o obs) v) ∧
        (NoDup obs → each_notified_once obs v w w').
Proof.
  intros Hs Hok Hnames Hv.
  pose proof (state_setter_run w self obs st v Hs Hok
                (can_print_intro _ _ _ Hnames Hv)) as Hr.
  set (w' := {| heap := _ |}) in Hr.
  assert (new_calls w w' = (λ o, (o, v)) <$> obs) as Hnew
    by (by apply new_calls_app).
  assert (subject_at (heap w') self obs v) as Hs'.
  { unfold subject_at, w'. simpl. by rewrite lookup_insert_eq. }
  exists w'. rewrite Hnew.
  split; [done|]. split; [done|]. split.
  { unfold Subject.state.
    erewrite bind_ok; [|by unfold get_subject; rewrite Hs']. done. }
  split; [done|]. split; [done|]. split.
  - intros o. apply deliveries_broadcast.
  - intros Hnd o Ho. rewrite Hnew, deliveries_broadcast.
    by rewrite registrations_NoDup.
Qed.

Lemma three_attached_ok :
  subject_at (heap three_attached) 0 [1%nat; 2%nat; 3%nat] VNone ∧
  observers_ok (heap three_attached) [1%nat; 2%nat; 3%nat].
Proof. split; [vm_compute; reflexivity | solve_observers_ok]. Qed.

Lemma three_attached_names :
  names_printable (heap three_attached) [1%nat; 2%nat; 3%nat].
Proof. solve_printable. Qed.

Lemma state_setter_notifies_witness :
  subject_at (heap three_attached) 0 [1%nat; 2%nat; 3%nat] VNone ∧
  observers_ok (heap three_attached) [1%nat; 2%nat; 3%nat] ∧
  names_printable (heap three_attached) [1%nat; 2%nat; 3%nat] ∧
  printable (VInt 10) ∧
  ∃ w', Subject.state_setter 0 (VInt 10) three_attached = (w', Ok ()) ∧
        subject_at (heap w') 0 [1%nat; 2%nat; 3%nat] (VInt 10) ∧
        Subject.state 0 w' = (w', Ok (VInt 10)) ∧
        new_calls three_attached w' =
          (λ o, (o, VInt 10)) <$> [1%nat; 2%nat; 3%nat] ∧
        stdout w' =
          stdout three_attached ++
          ((λ o, update_line (name_of (heap three_attached) o) (VInt 10))
             <$> [1%nat; 2%nat; 3%nat]) ∧
        (∀ o, deliveries o (new_calls three_attached w') =
              replicate (registrations o [1%nat; 2%nat; 3%nat]) (VInt 10)) ∧
        (NoDup [1%nat; 2%nat; 3%nat] →
         each_notified_once [1%nat; 2%nat; 3%nat] (VInt 10) three_attached w').
Proof.
  destruct three_attached_ok as [Hs Hok].
  assert (printable (VInt 10)) as Hv by (vm_compute; reflexivity).
  split; [exact Hs|]. split; [exact Hok|].
  split; [exact three_attached_names|]. split; [exact Hv|].
  exact (state_setter_notifies three_attached 0 [1%nat; 2%nat; 3%nat]
           VNone (VInt 10) Hs Hok three_attached_names Hv).
Defined.

(** C4 as the spec words it fails: an observer attached twice is
    notified twice by one state change, not exactly once. *)
Lemma twice_attached_notified_twice :
  subject_at (heap twice_attached) 0 [1%nat; 1%nat] VNone ∧
  (Subject.state_setter 0 (VInt 10) twice_attached).2 = Ok () ∧
  new_calls twice_attached (Subject.state_setter 0 (VInt 10) twice_attached).1
    = [(1%nat, VInt 10); (1%nat, VInt 10)] ∧
  stdout (Subject.state_setter 0 (VInt 10) twice_attached).1
    = ["Observer A: Subject's state is now 10";
       "Observer A: Subject's state is now 10"] ∧
  ¬ each_notified_once [1%nat; 1%nat] (VInt 10) twice_attached
      (Subject.state_setter 0 (VInt 10) twice_attached).1.
Proof.
  split; [vm_compute; reflexivity|].
  split; [vm_compute; reflexivity|].
  split; [vm_compute; reflexivity|].
  split; [vm_compute; reflexivity|].
  intros H. specialize (H 1%nat (list_elem_of_here _ _)).
  vm_compute in H. discriminate.
Qed.
(** C5, as the code has it.  [detach] removes the first registration
    of the subscriber, and no other.  After detaching a subscriber that
    is attached exactly once and then setting the state, that subscriber
    receives no call, while every remaining registration is served with
    the new state, in the original attachment order.  The remaining
    subscribers are [Observer] instances, and the value and their names
    are such that [update] can print them. *)
Theorem detach_then_set_state (w : world) (self o : loc) (l1 l2 : list loc)
    (st v : pyval) :
  subject_at (heap w) self (l1 ++ o :: l2) st →
  o ∉ l1 → o ∉ l2 →
  observers_ok (heap w) (l1 ++ l2) →
  names_printable (heap w) (l1 ++ l2) → printable v →
  ∃ w', detach_then_set self o v w = (w', Ok ()) ∧
        subject_at (heap w') self (l1 ++ l2) v ∧
        unnotified o w w' ∧
        new_calls w w' = (λ x, (x, v)) <$> (l1 ++ l2).
Proof.
  intros Hs Hn1 Hn2 Hok Hnames Hv.
  pose proof (detach_run w self o l1 l2 st Hs Hn1) as Hr1.
  set (w1 := {| heap := _ |}) in Hr1.
  assert (subject_at (heap w1) self (l1 ++ l2) st) as Hs1.
  { unfold subject_at, w1. simpl. by rewrite lookup_insert_eq. }
  assert (observers_ok (heap w1) (l1 ++ l2)) as Hok1.
  { unfold w1. simpl. by eapply observers_ok_insert. }
  assert (can_print (heap w1) v (l1 ++ l2)) as Hp1.
  { apply can_print_intro; [|done].
    unfold w1. simpl. by eapply names_printable_insert. }
  pose proof (state_setter_run w1 self (l1 ++ l2) st v Hs1 Hok1 Hp1) as Hr2.
  set (w2 := {| heap := _ |}) in Hr2.
  assert (new_calls w w2 = (λ x, (x, v)) <$> (l1 ++ l2)) as Hnew
    by (by apply new_calls_app).
  exists w2. split; [|split; [|split]].
  - unfold detach_then_set. by erewrite bind_ok.
  - unfold subject_at, w2. simpl. by rewrite lookup_insert_eq.
  - unfold unnotified. rewrite Hnew, deliveries_broadcast.
    rewrite registrations_absent; [done|].
    intros [?|?]%elem_of_app; contradiction.
  - done.
Qed.

Lemma detach_then_set_state_witness :
  subject_at (heap three_attached) 0 ([1%nat] ++ 2%nat :: [3%nat]) VNone ∧
  (2%nat ∉ [1%nat]) ∧ (2%nat ∉ [3%nat]) ∧
  observers_ok (heap three_attached) ([1%nat] ++ [3%nat]) ∧
  names_printable (heap three_attached) ([1%nat] ++ [3%nat]) ∧
  printable (VInt 20) ∧
  ∃ w', detach_then_set 0 2 (VInt 20) three_attached = (w', Ok ()) ∧
        subject_at (heap w') 0 ([1%nat] ++ [3%nat]) (VInt 20) ∧
        unnotified 2 three_attached w' ∧
        new_calls three_attached w' =
          (λ x, (x, VInt 20)) <$> ([1%nat] ++ [3%nat]).
Proof.
  assert (subject_at (heap three_attached) 0 ([1%nat] ++ 2%nat :: [3%nat]) VNone)
    as Hs by (vm_compute; reflexivity).
  assert (2%nat ∉ [1%nat]) as Hn1 by (by apply not_elem_of_cons; split;
    [lia | apply not_elem_of_nil]).
  assert (2%nat ∉ [3%nat]) as Hn2 by (by apply not_elem_of_cons; split;
    [lia | apply not_elem_of_nil]).
  assert (observers_ok (heap three_attached) ([1%nat] ++ [3%nat])) as Hok
    by (simpl; solve_observers_ok).
  assert (names_printable (heap three_attached) ([1%nat] ++ [3%nat]))
    as Hnames by (simpl; solve_printable).
  assert (printable (VInt 20)) as Hv by (vm_compute; reflexivity).
  split; [exact Hs|]. split; [exact Hn1|]. split; [exact Hn2|].
  split; [exact Hok|]. split; [exact Hnames|]. split; [exact Hv|].
  exact (detach_then_set_state three_attached 0 2 [1%nat] [3%nat] VNone
           (VInt 20) Hs Hn1 Hn2 Hok Hnames Hv).
Defined.

(** C5 as the spec words it fails: an observer attached twice and
    detached once is still notified by the next state change. *)
Lemma detached_still_notified :
  subject_at (heap twice_attached) 0 [1%nat; 1%nat] VNone ∧
  (detach_then_set 0 1 (VInt 20) twice_attached).2 = Ok () ∧
  new_calls twice_attached (detach_then_set 0 1 (VInt 20) twice_attached).1
    = [(1%nat, VInt 20)] ∧
  ¬ unnotified 1 twice_attached
      (detach_then_set 0 1 (VInt 20) twice_attached).1.
Proof.
  split; [vm_compute; reflexivity|].
  split; [vm_compute; reflexivity|].
  split; [vm_compute; reflexivity|].
  unfold unnotified. vm_compute. discriminate.
Qed.

(** C6.  Detaching an object that is not in the subject's list raises
    [ValueError], and the world it leaves is the world it found: the
    list, the state and everything else are untouched. *)
Theorem detach_missing_fails (w : world) (self o : loc) (obs : list loc)
    (st : pyval) :
  subject_at (heap w) self obs st → o ∉ obs →
  Subject.detach self o w = (w, Raise ValueError).
Proof.
  intros Hs Hn. unfold Subject.detach.
  erewrite bind_ok; [|by unfold get_subject; rewrite Hs]. simpl.
  by rewrite list_remove_absent.
Qed.

Lemma detach_missing_fails_witness :
  subject_at (heap three_attached) 0 [1%nat; 2%nat; 3%nat] VNone ∧
  (7%nat ∉ [1%nat; 2%nat; 3%nat]) ∧
  Subject.detach 0 7 three_attached = (three_attached, Raise ValueError).
Proof.
  assert (subject_at (heap three_attached) 0 [1%nat; 2%nat; 3%nat] VNone)
    as Hs by (vm_compute; reflexivity).
  assert (7%nat ∉ [1%nat; 2%nat; 3%nat]) as Hn.
  { repeat (apply not_elem_of_cons; split; [lia|]). apply not_elem_of_nil. }
  split; [exact Hs|]. split; [exact Hn|].
  exact (detach_missing_fails three_attached 0 7 [1%nat; 2%nat; 3%nat]
           VNone Hs Hn).
Defined.



Example repeated_attach_prints :
  names_printable (heap none_attached) [] ∧
  printable (name {| name := VStr "A" |}) ∧ printable (VInt 10) ∧
  (attach_times 2 0 1 none_attached) = (twice_attached, Ok ()).
Proof.
  split; [apply Forall_nil_2|].
  split; [vm_compute; reflexivity|].
  split; vm_compute; reflexivity.
Qed.

End observer_props.

(** ** singleton_pattern.py *)

Section singleton_props.
Import SingletonPattern.

(** The first request: a new object, [value] set to 0, recorded in the
    class. *)
Lemma new_first (w : world) :
  _instance w = None →
  ∃ l, heap w !! l = None ∧
       Singleton.__new__ w =
         ({| _instance := Some l;
             heap := <[l := {| value := Some (VInt 0) |}]> (heap w) |},
          Ok (Some l)).
Proof.
  intros Hn. exists (fresh (dom (heap w))). split.
  { apply (not_elem_of_dom (D:=gset nat)), is_fresh. }
  unfold Singleton.__new__, get_instance, set_instance, object_new, modify, get,
    setattr_value, mbind, exec_bind, mret, exec_ret. simpl.
  destruct (decide (_instance w = None)) as [_|Hne]; [|done].
  simpl. rewrite lookup_insert_eq. by rewrite insert_insert_eq.
Qed.

(** A later request: the recorded reference, and nothing changes. *)
Lemma new_existing (w : world) (l : loc) :
  _instance w = Some l → Singleton.__new__ w = (w, Ok (Some l)).
Proof.
  intros Hi.
  unfold Singleton.__new__, get_instance, get, mbind, exec_bind, mret, exec_ret.
  simpl. destruct (decide (_instance w = None)) as [Hn|_]; [congruence|].
  by rewrite Hi.
Qed.

(** C9.  When the instance exists, a construction request returns it
    and changes nothing: the world after the request is the world before
    it, so [value] is not set back to 0 and reads as it did before the
    request, whatever the increments made it. *)
Theorem new_again_unchanged (w : world) (l : loc) (v : pyval) :
  _instance w = Some l →
  getattr_value (Some l) w = (w, Ok v) →
  (r ← Singleton.__new__; v' ← getattr_value r; mret (r, v')) w
    = (w, Ok (Some l, v)).
Proof.
  intros Hi Hv.
  erewrite bind_ok by (by apply new_existing).
  by erewrite bind_ok by exact Hv.
Qed.

Lemma new_again_unchanged_witness :
  _instance incremented = Some 0%nat ∧
  getattr_value (Some 0%nat) incremented = (incremented, Ok (VInt 5)) ∧
  (r ← Singleton.__new__; v' ← getattr_value r; mret (r, v')) incremented
    = (incremented, Ok (Some 0%nat, VInt 5)).
Proof.
  assert (getattr_value (Some 0%nat) incremented = (incremented, Ok (VInt 5)))
    as Hv by (vm_compute; reflexivity).
  split; [reflexivity|]. split; [exact Hv|].
  exact (new_again_unchanged incremented 0 (VInt 5) eq_refl Hv).
Defined.

Lemma wf_initial : wf initial.
Proof. intros l Hl. discriminate. Qed.

(** A request in a well-formed world always succeeds, and the class
    then holds the reference it returned. *)
Lemma new_run (w : world) :
  wf w →
  ∃ w' l, Singleton.__new__ w = (w', Ok (Some l)) ∧ _instance w' = Some l ∧
          wf w' ∧ (∀ l', _instance w = Some l' → w' = w).
Proof.
  intros Hwf. destruct (_instance w) as [l|] eqn:Hi.
  - exists w, l. split; [by apply new_existing|]. done.
  - destruct (new_first w Hi) as (l & Hf & Hr).
    eexists _, l. split; [exact Hr|]. split; [done|]. split; [|done].
    intros l' Hl'. simpl in *. inversion Hl'; subst l'.
    exists 0. by rewrite lookup_insert_eq.
Qed.

(** [increment] through the instance: [value] goes up by one. *)
Lemma increment_run (w : world) (l : loc) (n : Z) :
  heap w !! l = Some {| value := Some (VInt n) |} →
  Singleton.increment (Some l) w =
    ({| _instance := _instance w;
        heap := <[l := {| value := Some (VInt (n + 1)) |}]> (heap w) |}, Ok ()).
Proof.
  intros Hl.
  unfold Singleton.increment.
  erewrite bind_ok; [|by unfold getattr_value; rewrite Hl].
  erewrite bind_ok by reflexivity.
  unfold setattr_value. by rewrite Hl.
Qed.

(** Whatever [increment] is called on, and whether it succeeds or not,
    the class attribute stays and the world stays well-formed. *)
Lemma increment_keeps (w : world) (r : option loc) :
  wf w →
  ∃ w' res, Singleton.increment r w = (w', res) ∧
            _instance w' = _instance w ∧ wf w'.
Proof.
  intros Hwf.
  unfold Singleton.increment, getattr_value, setattr_value, py_add,
    mbind, exec_bind, mret, exec_ret, raise.
  destruct r as [l|]; [|by eauto].
  destruct (heap w !! l) as [[[v|]]|] eqn:Hl; [|by eauto..].
  destruct v as [|n|t]; [by eauto| |by eauto].
  rewrite Hl. eexists _, _. split; [done|]. split; [done|].
  intros l' Hl'. simpl in *. destruct (decide (l = l')) as [<-|Hne].
  - exists (n + 1). by rewrite lookup_insert_eq.
  - rewrite lookup_insert_ne by done. by apply Hwf.
Qed.

(** Well-formedness is kept by everything a client can do. *)
Lemma run_keeps_wf (ops : list op) :
  ∀ w : world, wf w → ∃ w' rs, run ops w = (w', Ok rs) ∧ wf w'.
Proof.
  induction ops as [|[|r] ops IH]; intros w Hwf.
  - by exists w, [].
  - destruct (new_run w Hwf) as (w1 & l & Hr1 & _ & Hwf1 & _).
    destruct (IH w1 Hwf1) as (w' & rs & Hr & Hwf').
    exists w', (Some l :: rs). split; [|done].
    simpl. erewrite bind_ok by exact Hr1. by erewrite bind_ok.
  - destruct (increment_keeps w r Hwf) as (w1 & res & Hr1 & _ & Hwf1).
    destruct (IH w1 Hwf1) as (w' & rs & Hr & Hwf').
    exists w', rs. split; [|done].
    simpl. erewrite bind_ok by (by apply attempt_run). done.
Qed.

(** Once the instance exists, every request among any operations
    returns that same reference. *)
Lemma run_same (ops : list op) :
  ∀ (w : world) (l : loc), wf w → _instance w = Some l →
  ∃ w' rs, run ops w = (w', Ok rs) ∧ Forall (λ r, r = Some l) rs ∧
           _instance w' = Some l ∧ wf w'.
Proof.
  induction ops as [|[|r] ops IH]; intros w l Hwf Hi.
  - exists w, []. by repeat split.
  - destruct (IH w l Hwf Hi) as (w' & rs & Hr & Hall & Hi' & Hwf').
    exists w', (Some l :: rs). split; [|split; [|done]].
    + simpl. erewrite bind_ok by (by apply new_existing).
      by erewrite bind_ok.
    + by constructor.
  - destruct (increment_keeps w r Hwf) as (w1 & res & Hr1 & Hi1 & Hwf1).
    rewrite Hi in Hi1.
    destruct (IH w1 l Hwf1 Hi1) as (w' & rs & Hr & Hall & Hi' & Hwf').
    exists w', rs. split; [|done].
    simpl. erewrite bind_ok by (by apply attempt_run). done.
Qed.

(** The value a request finds: the one the instance had, or 0 on the
    instance the request has just made. *)
Lemma new_value (w : world) :
  wf w →
  ∃ w1 l, Singleton.__new__ w = (w1, Ok (Some l)) ∧ _instance w1 = Some l ∧
          heap w1 !! l =
            Some {| value := Some (VInt (SingletonClients.current w)) |}.
Proof.
  intros Hwf. unfold SingletonClients.current.
  destruct (_instance w) as [l|] eqn:Hi.
  - destruct (Hwf l Hi) as [n Hl]. exists w, l.
    split; [by apply new_existing|]. split; [done|]. by rewrite Hl.
  - destruct (new_first w Hi) as (l & Hf & Hr).
    eexists _, l. split; [exact Hr|]. simpl. split; [done|].
    by rewrite lookup_insert_eq.
Qed.

(** An [increment] through anything but a reference to [l] leaves the
    object at [l] and the class attribute alone, whether it succeeds
    or fails. *)
Lemma increment_elsewhere (w : world) (r : option loc) (l : loc) :
  r ≠ Some l →
  ∃ w' res, Singleton.increment r w = (w', res) ∧
            _instance w' = _instance w ∧ heap w' !! l = heap w !! l.
Proof.
  intros Hne.
  unfold Singleton.increment, getattr_value, setattr_value, py_add,
    mbind, exec_bind, mret, exec_ret, raise.
  destruct r as [l'|]; [|by eauto].
  destruct (heap w !! l') as [[[v|]]|] eqn:Hl; [|by eauto..].
  destruct v as [|n|t]; [by eauto| |by eauto].
  rewrite Hl. eexists _, _. split; [done|]. split; [done|].
  simpl. rewrite lookup_insert_ne; [done|]. congruence.
Qed.

Lemma increments_through_cons (l : loc) (o : op) (ops : list op) :
  increments_through l (o :: ops) =
  ((if decide (o = Increment (Some l)) then 1 else 0)
   + increments_through l ops)%nat.
Proof.
  unfold increments_through. rewrite filter_cons.
  by destruct (decide (o = Increment (Some l))).
Qed.

(** Any operations on an existing instance: every request returns it,
    and its value goes up by the number of increments made through
    it. *)
Lemma run_counts (ops : list op) :
  ∀ (w : world) (l : loc) (m : Z),
  _instance w = Some l →
  heap w !! l = Some {| value := Some (VInt m) |} →
  ∃ w' rs, run ops w = (w', Ok rs) ∧ Forall (λ r, r = Some l) rs ∧
           _instance w' = Some l ∧
           heap w' !! l =
             Some {| value :=
                       Some (VInt (m + Z.of_nat (increments_through l ops))) |}.
Proof.
  induction ops as [|[|r] ops IH]; intros w l m Hi Hl.
  - exists w, []. split; [done|]. split; [done|]. split; [done|].
    unfold increments_through. simpl. by rewrite Z.add_0_r.
  - destruct (IH w l m Hi Hl) as (w' & rs & Hr & Hall & Hi' & Hl').
    exists w', (Some l :: rs). split; [|split; [|split; [done|]]].
    + simpl. erewrite bind_ok by (by apply new_existing).
      by erewrite bind_ok.
    + by constructor.
    + rewrite increments_through_cons, decide_False by done. exact Hl'.
  - destruct (decide (r = Some l)) as [->|Hne].
    + pose proof (increment_run w l m Hl) as Hr1.
      set (w1 := {| _instance := _ |}) in Hr1.
      destruct (IH w1 l (m + 1)) as (w' & rs & Hr & Hall & Hi' & Hl').
      { done. }
      { unfold w1. simpl. by rewrite lookup_insert_eq. }
      exists w', rs. split; [|split; [done|split; [done|]]].
      * simpl. erewrite bind_ok by (by apply attempt_run). done.
      * rewrite increments_through_cons, decide_True by done.
        rewrite Hl'. do 4 f_equal. lia.
    + destruct (increment_elsewhere w r l Hne) as (w1 & res & Hr1 & Hi1 & Hl1).
      destruct (IH w1 l m) as (w' & rs & Hr & Hall & Hi' & Hl').
      { by rewrite Hi1. }
      { by rewrite Hl1. }
      exists w', rs. split; [|split; [done|split; [done|]]].
      * simpl. erewrite bind_ok by (by apply attempt_run). done.
      * rewrite increments_through_cons, decide_False by congruence.
        exact Hl'.
Qed.

(** C7.  In any world a program can be in, a first request, any
    operations in between, and a second request: all requests return one
    and the same reference, and an increment made through one reference
    shows through the other, in either order.  The first request finds
    the value the instance had (0 if it has just been made); after an
    increment through the first reference, a reference requested later
    reads that value plus one, plus the increments made through the
    instance in between; after an increment through the second, the
    first reads one more. *)
Theorem singleton_identity (w : world) (between : list op) :
  wf w →
  ∃ w' l rs,
    two_requests between w =
      (w', Ok (Some l, rs, Some l,
               VInt (SingletonClients.current w),
               VInt (SingletonClients.current w + 1
                     + Z.of_nat (increments_through l between)),
               VInt (SingletonClients.current w + 1
                     + Z.of_nat (increments_through l between) + 1))) ∧
    Forall (λ r, r = Some l) rs.
Proof.
  intros Hwf.
  destruct (new_value w Hwf) as (w1 & l & Hr1 & Hi1 & Hl1).
  set (n := SingletonClients.current w) in *.
  pose proof (increment_run w1 l n Hl1) as Hr2.
  set (w2 := {| _instance := _ |}) in Hr2.
  destruct (run_counts between w2 l (n + 1))
    as (w3 & rs & Hr3 & Hall & Hi3 & Hl3).
  { unfold w2. simpl. exact Hi1. }
  { unfold w2. simpl. by rewrite lookup_insert_eq. }
  set (c := Z.of_nat (increments_through l between)) in *.
  pose proof (increment_run w3 l (n + 1 + c) Hl3) as Hr4.
  set (w4 := {| _instance := _ |}) in Hr4.
  exists w4, l, rs. split; [|done]. unfold two_requests.
  erewrite bind_ok by exact Hr1.
  erewrite bind_ok; [|by unfold getattr_value; rewrite Hl1].
  erewrite bind_ok by exact Hr2.
  erewrite bind_ok by exact Hr3.
  erewrite bind_ok by (by apply new_existing).
  erewrite bind_ok; [|by unfold getattr_value; rewrite Hl3].
  erewrite bind_ok by exact Hr4.
  erewrite bind_ok; [done|].
  unfold getattr_value, w4. simpl. by rewrite lookup_insert_eq.
Qed.

Lemma singleton_identity_witness :
  wf initial ∧
  ∃ w' l rs,
    two_requests [Construct; Increment (Some 0%nat); Construct] initial =
      (w', Ok (Some l, rs, Some l,
               VInt (SingletonClients.current initial),
               VInt (SingletonClients.current initial + 1
                     + Z.of_nat (increments_through l
                         [Construct; Increment (Some 0%nat); Construct])),
               VInt (SingletonClients.current initial + 1
                     + Z.of_nat (increments_through l
                         [Construct; Increment (Some 0%nat); Construct])
                     + 1))) ∧
    Forall (λ r, r = Some l) rs.
Proof.
  split.
  - exact wf_initial.
  - exact (singleton_identity initial
             [Construct; Increment (Some 0%nat); Construct] wf_initial).
Defined.

Example two_requests_from_initial :
  (two_requests [Construct; Increment (Some 0%nat); Construct] initial).2 =
  Ok (Some 0%nat, [Some 0%nat; Some 0%nat], Some 0%nat,
      VInt 0, VInt 2, VInt 3).
Proof. vm_compute. reflexivity. Qed.

(** The script's own order: request, increment, request, increment. *)
Example two_requests_as_in_script :
  two_requests [] initial =
  ({| _instance := Some 0%nat;
      heap := {[ 0%nat := {| value := Some (VInt 2) |} ]} |},
   Ok (Some 0%nat, [], Some 0%nat, VInt 0, VInt 1, VInt 2)).
Proof. vm_compute. reflexivity. Qed.

Example two_requests_keep_value :
  (two_requests [] incremented).2 =
  Ok (Some 0%nat, [], Some 0%nat, VInt 5, VInt 6, VInt 7).
Proof. vm_compute. reflexivity. Qed.
End singleton_props.

(** ** decorator_pattern.py *)

Section decorator_props.
Import DecoratorPattern.
Context {Args R : Type}.

(** C8.  The two wrappers stacked around [func] and called with [args]
    on a console showing [out]: ["Hello!"] is printed first, then [func]
    runs with the same arguments, then ["Goodbye!"] is printed, and the
    call returns what [func] returned.  This holds for
    [greet (farewell func)], the stacking of the script, and for the
    opposite nesting as well. *)
Theorem stacked_wrappers (func : Args → exec stdout R) (args : Args)
    (out out' : stdout) (r : R) :
  func args (out ++ ["Hello!"]) = (out', Ok r) →
  greet (farewell func) args out = (out' ++ ["Goodbye!"], Ok r) ∧
  farewell (greet func) args out = (out' ++ ["Goodbye!"], Ok r).
Proof.
  intros Hf. unfold greet, farewell. split.
  - erewrite bind_ok by reflexivity. simpl.
    erewrite bind_ok by exact Hf.
    by erewrite bind_ok by reflexivity.
  - erewrite bind_ok.
    2:{ erewrite bind_ok by reflexivity. exact Hf. }
    by erewrite bind_ok by reflexivity.
Qed.

(** When the wrapped function raises, the exception passes through both
    wrappers and ["Goodbye!"] is not printed. *)
Lemma stacked_wrappers_raise (func : Args → exec stdout R) (args : Args)
    (out out' : stdout) (e : exn) :
  func args (out ++ ["Hello!"]) = (out', Raise e) →
  greet (farewell func) args out = (out', Raise e).
Proof.
  intros Hf. unfold greet, farewell.
  erewrite bind_ok by reflexivity. simpl.
  by erewrite bind_raise by exact Hf.
Qed.

(** [greet] alone: the line, then the function, result unchanged. *)
Lemma greet_run (func : Args → exec stdout R) (args : Args) (out : stdout) :
  greet func args out = func args (out ++ ["Hello!"]).
Proof. unfold greet. by erewrite bind_ok by reflexivity. Qed.
End decorator_props.

Lemma stacked_wrappers_witness :
  DecoratorPattern.say_name_body (VStr "Alice") ([] ++ ["Hello!"])
    = (["Hello!"; "My name is Alice."], Ok VNone) ∧
  DecoratorPattern.greet (DecoratorPattern.farewell DecoratorPattern.say_name_body)
    (VStr "Alice") []
    = (["Hello!"; "My name is Alice."] ++ ["Goodbye!"], Ok VNone) ∧
  DecoratorPattern.farewell (DecoratorPattern.greet DecoratorPattern.say_name_body)
    (VStr "Alice") []
    = (["Hello!"; "My name is Alice."] ++ ["Goodbye!"], Ok VNone).
Proof.
  assert (DecoratorPattern.say_name_body (VStr "Alice") ([] ++ ["Hello!"])
          = (["Hello!"; "My name is Alice."], Ok VNone)) as H
    by (vm_compute; reflexivity).
  split; [exact H|].
  exact (stacked_wrappers DecoratorPattern.say_name_body (VStr "Alice") []
           ["Hello!"; "My name is Alice."] VNone H).
Defined.

Section iterator_examples.
Import IteratorPattern.

Example usage_output :
  (usage ∅).2 = Ok [Ok (VStr "Apple"); Ok (VStr "Banana")].
Proof. vm_compute. reflexivity. Qed.

Example apple_heap_built :
  ((c ← MyCollection.__init__;
    MyCollection.add_item c (VStr "Apple") ;; mret c) ∅)
  = (apple_heap, Ok 1%nat).
Proof. vm_compute. reflexivity. Qed.

Example four_calls_on_three :
  (fresh_cursor_run [VStr "Apple"; VStr "Banana"; VStr "Cherry"] 4 ∅).2
  = Ok [Ok (VStr "Apple"); Ok (VStr "Banana"); Ok (VStr "Cherry");
        Raise StopIteration].
Proof. vm_compute. reflexivity. Qed.
End iterator_examples.

Section more_examples.
Example observer_usage_output :
  ObserverPattern.stdout (ObserverPattern.usage ObserverPattern.empty_world).1 =
  [ "Setting subject state to 10";
    "Observer Observer 1: Subject's state is now 10";
    "Observer Observer 2: Subject's state is now 10";
    "Observer Observer 3: Subject's state is now 10";
    ObserverPattern.newline +:+ "Detaching Observer 2";
    ObserverPattern.newline +:+ "Setting subject state to 20";
    "Observer Observer 1: Subject's state is now 20";
    "Observer Observer 3: Subject's state is now 20" ].
Proof. vm_compute. reflexivity. Qed.

Example singleton_usage_output :
  (SingletonPattern.usage SingletonPattern.initial).2 =
  Ok (VInt 1, VInt 2, true).
Proof. vm_compute. reflexivity. Qed.

Example decorator_usage_output :
  DecoratorPattern.usage [] =
  (["Hello!"; "My name is Alice."; "Goodbye!"; "Hello!";
    "Result of addition: 8"], Ok ()).
Proof. vm_compute. reflexivity. Qed.
End more_examples.


(** ** Clients of iterator_pattern.py *)

Section iterator_client_props.
Import IteratorPattern IteratorClients.

Lemma collection_init_frame (h : heap) :
  ∃ h' c l, MyCollection.__init__ h = (h', Ok c) ∧
            collection_at h' c l ∧ h' !! l = Some (OList []) ∧
            h !! c = None ∧ h !! l = None ∧ c ≠ l ∧
            ∀ l', l' ≠ c → l' ≠ l → h' !! l' = h !! l'.
Proof.
  unfold MyCollection.__init__.
  destruct (alloc_fresh h (OList [])) as [Hf1 Ha1].
  set (l := fresh (dom h)) in *. set (h1 := <[l := OList []]> h) in *.
  destruct (alloc_fresh h1 (OCollection {| coll_items := l |})) as [Hf2 Ha2].
  set (c := fresh (dom h1)) in *.
  assert (c ≠ l) as Hne.
  { intros Heq. rewrite Heq in Hf2. unfold h1 in Hf2.
    by rewrite lookup_insert_eq in Hf2. }
  assert (h !! c = None) as Hfc.
  { unfold h1 in Hf2. by rewrite lookup_insert_ne in Hf2. }
  eexists _, c, l. split; [|split; [|split; [|split; [|split; [|split]]]]].
  - erewrite bind_ok by exact Ha1. exact Ha2.
  - unfold collection_at. by rewrite lookup_insert_eq.
  - rewrite lookup_insert_ne by done. unfold h1. by rewrite lookup_insert_eq.
  - done.
  - done.
  - done.
  - intros l' H1 H2. unfold h1. by rewrite !lookup_insert_ne.
Qed.

(** X2.  Two cursors over one collection do not disturb each other:
    each produces the collection's elements from its own position,
    whatever the other has been asked in between; they are two
    different objects; and the collection holds afterwards what it
    held before. *)
Theorem cursors_independent (h : heap) (c : loc) (xs : list pyval)
    (j n m : nat) :
  contents h c xs →
  ∃ h', two_cursors c j n m h =
          (h', Ok (false, outcomes xs 0 j, outcomes xs 0 n,
                   outcomes xs (j `min` length xs) m)) ∧
        contents h' c xs.
Proof.
  intros (l & Hc & Hl)%contents_unfold.
  assert (c ≠ l) by (intros ->; unfold collection_at in Hc; congruence).
  destruct (iter_cursor h c l Hc) as (cur1 & Hr1 & Hf1).
  set (h1 := <[cur1 := _]> h) in *.
  assert (cur1 ≠ l) by (intros ->; congruence).
  assert (cur1 ≠ c) by (intros ->; unfold collection_at in Hc; congruence).
  assert (collection_at h1 c l) as Hc1.
  { unfold collection_at, h1. by rewrite lookup_insert_ne. }
  destruct (iter_cursor h1 c l Hc1) as (cur2 & Hr2 & Hf2).
  set (h2 := <[cur2 := _]> h1) in *.
  assert (cur2 ≠ cur1) as Hne.
  { intros ->. unfold h1 in Hf2. by rewrite lookup_insert_eq in Hf2. }
  assert (cur2 ≠ l).
  { intros ->. unfold h1 in Hf2. rewrite lookup_insert_ne in Hf2 by done.
    congruence. }
  assert (cur2 ≠ c) by (intros ->; unfold collection_at in Hc1; congruence).
  destruct (nexts_outcomes j h2 cur1 l 0%nat xs) as (h3 & Hr3 & Hc3 & Hf3).
  { unfold cursor_at, h2, h1. rewrite lookup_insert_ne by done.
    by rewrite lookup_insert_eq. }
  { unfold h2, h1. by rewrite !lookup_insert_ne. }
  destruct (nexts_outcomes n h3 cur2 l 0%nat xs) as (h4 & Hr4 & Hc4 & Hf4).
  { unfold cursor_at. rewrite Hf3 by done. unfold h2.
    by rewrite lookup_insert_eq. }
  { rewrite Hf3 by done. unfold h2, h1. by rewrite !lookup_insert_ne. }
  destruct (nexts_outcomes m h4 cur1 l (j `min` length xs)%nat xs)
    as (h5 & Hr5 & Hc5 & Hf5).
  { unfold cursor_at. rewrite Hf4 by done.
    rewrite Nat.sub_0_r in Hc3. exact Hc3. }
  { rewrite Hf4, Hf3 by done. unfold h2, h1. by rewrite !lookup_insert_ne. }
  exists h5. split.
  - unfold two_cursors.
    erewrite bind_ok by exact Hr1. erewrite bind_ok by exact Hr2.
    erewrite bind_ok by exact Hr3. erewrite bind_ok by exact Hr4.
    erewrite bind_ok by exact Hr5.
    by rewrite bool_decide_eq_false_2.
  - apply contents_unfold. exists l. unfold collection_at.
    rewrite !Hf5, !Hf4, !Hf3 by done. unfold h2, h1.
    by rewrite !lookup_insert_ne.
Qed.

Lemma cursors_independent_witness :
  contents apple_heap 1 [VStr "Apple"] ∧
  ∃ h', two_cursors 1 1 2 1 apple_heap =
          (h', Ok (false, outcomes [VStr "Apple"] 0 1,
                   outcomes [VStr "Apple"] 0 2,
                   outcomes [VStr "Apple"] (1 `min` length [VStr "Apple"]) 1)) ∧
        contents h' 1 [VStr "Apple"].
Proof.
  split.
  - exact apple_heap_contents.
  - exact (cursors_independent apple_heap 1 [VStr "Apple"] 1 2 1
             apple_heap_contents).
Defined.

(** X1.  Using a cursor up does not use the collection up.  A cursor
    made after another cursor has been advanced, or exhausted, starts
    at the first element again, while the earlier cursor goes on from
    where it stood: once exhausted it stays exhausted. *)
Theorem new_cursor_restarts (h : heap) (c : loc) (xs : list pyval)
    (j n m : nat) :
  contents h c xs →
  (∃ h', second_cursor_later c j n m h =
           (h', Ok (outcomes xs 0 j, outcomes xs 0 n,
                    outcomes xs (j `min` length xs) m))) ∧
  ((length xs ≤ j)%nat →
   outcomes xs (j `min` length xs) m = replicate m (Raise StopIteration)).
Proof.
  intros Hcont. split.
  - apply contents_unfold in Hcont as (l & Hc & Hl).
    assert (c ≠ l) by (intros ->; unfold collection_at in Hc; congruence).
    destruct (iter_cursor h c l Hc) as (cur1 & Hr1 & Hf1).
    set (h1 := <[cur1 := _]> h) in *.
    assert (cur1 ≠ l) by (intros ->; congruence).
    assert (cur1 ≠ c) by (intros ->; unfold collection_at in Hc; congruence).
    destruct (nexts_outcomes j h1 cur1 l 0%nat xs) as (h2 & Hr2 & Hc2 & Hf2).
    { unfold cursor_at, h1. by rewrite lookup_insert_eq. }
    { unfold h1. by rewrite lookup_insert_ne. }
    assert (collection_at h2 c l) as Hcc2.
    { unfold collection_at. rewrite Hf2 by done. unfold h1.
      by rewrite lookup_insert_ne. }
    destruct (iter_cursor h2 c l Hcc2) as (cur2 & Hr3 & Hf3).
    set (h3 := <[cur2 := _]> h2) in *.
    assert (cur2 ≠ cur1) as Hne.
    { intros ->. unfold cursor_at in Hc2. congruence. }
    assert (h2 !! l = Some (OList xs)) as Hl2.
    { rewrite Hf2 by done. unfold h1. by rewrite lookup_insert_ne. }
    assert (cur2 ≠ l) by (intros ->; congruence).
    destruct (nexts_outcomes n h3 cur2 l 0%nat xs) as (h4 & Hr4 & Hc4 & Hf4).
    { unfold cursor_at, h3. by rewrite lookup_insert_eq. }
    { unfold h3. by rewrite lookup_insert_ne. }
    destruct (nexts_outcomes m h4 cur1 l (j `min` length xs)%nat xs)
      as (h5 & Hr5 & _).
    { unfold cursor_at. rewrite Hf4 by done. unfold h3.
      rewrite lookup_insert_ne by done.
      rewrite Nat.sub_0_r in Hc2. exact Hc2. }
    { rewrite Hf4 by done. unfold h3. by rewrite lookup_insert_ne. }
    exists h5. unfold second_cursor_later.
    erewrite bind_ok by exact Hr1. erewrite bind_ok by exact Hr2.
    erewrite bind_ok by exact Hr3. erewrite bind_ok by exact Hr4.
    by erewrite bind_ok by exact Hr5.
  - intros Hj. unfold outcomes.
    rewrite drop_ge by lia. rewrite take_nil. simpl.
    f_equal. lia.
Qed.

Lemma new_cursor_restarts_witness :
  contents apple_heap 1 [VStr "Apple"] ∧
  (∃ h', second_cursor_later 1 3 2 2 apple_heap =
           (h', Ok (outcomes [VStr "Apple"] 0 3, outcomes [VStr "Apple"] 0 2,
                    outcomes [VStr "Apple"] (3 `min` length [VStr "Apple"]) 2))) ∧
  ((length [VStr "Apple"] ≤ 3)%nat →
   outcomes [VStr "Apple"] (3 `min` length [VStr "Apple"]) 2
     = replicate 2 (Raise StopIteration)).
Proof.
  split.
  - exact apple_heap_contents.
  - exact (new_cursor_restarts apple_heap 1 [VStr "Apple"] 3 2 2
             apple_heap_contents).
Defined.
Lemma appended_to_cons (first b : bool) (item : pyval)
    (appends : list (bool * pyval)) :
  appended_to first ((b, item) :: appends) =
  if decide (b = first) then item :: appended_to first appends
  else appended_to first appends.
Proof.
  unfold appended_to. rewrite filter_cons. simpl.
  by destruct (decide (b = first)).
Qed.

Lemma two_collections_loop (appends : list (bool * pyval)) :
  ∀ (h : heap) c1 c2 l1 l2 xs1 xs2,
  collection_at h c1 l1 → collection_at h c2 l2 →
  h !! l1 = Some (OList xs1) → h !! l2 = Some (OList xs2) → l1 ≠ l2 →
  ∃ h', for_each appends
          (λ a, MyCollection.add_item (if a.1 then c1 else c2) a.2) h
          = (h', Ok ()) ∧
        collection_at h' c1 l1 ∧ collection_at h' c2 l2 ∧
        h' !! l1 = Some (OList (xs1 ++ appended_to true appends)) ∧
        h' !! l2 = Some (OList (xs2 ++ appended_to false appends)).
Proof.
  induction appends as [|[b item] appends IH];
    intros h c1 c2 l1 l2 xs1 xs2 Hc1 Hc2 Hl1 Hl2 Hne.
  - exists h. unfold appended_to. simpl. by rewrite !app_nil_r.
  - assert (c1 ≠ l1 ∧ c1 ≠ l2 ∧ c2 ≠ l1 ∧ c2 ≠ l2) as (? & ? & ? & ?).
    { unfold collection_at in *. repeat split; intros ->; congruence. }
    destruct b.
    + pose proof (add_item_list h c1 l1 xs1 item Hc1 Hl1) as Hr.
      set (h1 := <[l1 := _]> h) in Hr.
      destruct (IH h1 c1 c2 l1 l2 (xs1 ++ [item]) xs2)
        as (h' & Hr' & Hc1' & Hc2' & Hl1' & Hl2').
      { unfold collection_at, h1. by rewrite lookup_insert_ne. }
      { unfold collection_at, h1. by rewrite lookup_insert_ne. }
      { unfold h1. by rewrite lookup_insert_eq. }
      { unfold h1. by rewrite lookup_insert_ne. }
      { done. }
      exists h'. split; [|split; [done|split; [done|split]]].
      * simpl. by erewrite bind_ok by exact Hr.
      * rewrite appended_to_cons, decide_True by done.
        by rewrite <- app_assoc in Hl1'.
      * by rewrite appended_to_cons, decide_False by done.
    + pose proof (add_item_list h c2 l2 xs2 item Hc2 Hl2) as Hr.
      set (h1 := <[l2 := _]> h) in Hr.
      destruct (IH h1 c1 c2 l1 l2 xs1 (xs2 ++ [item]))
        as (h' & Hr' & Hc1' & Hc2' & Hl1' & Hl2').
      { unfold collection_at, h1. by rewrite lookup_insert_ne. }
      { unfold collection_at, h1. by rewrite lookup_insert_ne. }
      { unfold h1. by rewrite lookup_insert_ne. }
      { unfold h1. by rewrite lookup_insert_eq. }
      { done. }
      exists h'. split; [|split; [done|split; [done|split]]].
      * simpl. by erewrite bind_ok by exact Hr.
      * by rewrite appended_to_cons, decide_False by done.
      * rewrite appended_to_cons, decide_True by done.
        by rewrite <- app_assoc in Hl2'.
Qed.

(** X3.  Two collections never share their elements: each
    [MyCollection()] makes a list of its own, so after any series of
    [add_item] calls on the one or the other, each collection holds
    exactly the items added to it, in the order of the calls. *)
Theorem collections_independent (h : heap) (appends : list (bool * pyval)) :
  ∃ h' c1 c2, two_collections appends h = (h', Ok (c1, c2)) ∧
              c1 ≠ c2 ∧
              contents h' c1 (appended_to true appends) ∧
              contents h' c2 (appended_to false appends).
Proof.
  destruct (collection_init_frame h)
    as (h1 & c1 & l1 & Hr1 & Hc1 & Hl1 & _ & _ & Hn1 & _).
  destruct (collection_init_frame h1)
    as (h2 & c2 & l2 & Hr2 & Hc2 & Hl2 & Hfc & Hfl & Hn2 & Hfr).
  assert (c2 ≠ c1) by (intros ->; unfold collection_at in Hc1; congruence).
  assert (c2 ≠ l1) by (intros ->; congruence).
  assert (l2 ≠ c1) by (intros ->; unfold collection_at in Hc1; congruence).
  assert (l2 ≠ l1) by (intros ->; congruence).
  destruct (two_collections_loop appends h2 c1 c2 l1 l2 [] [])
    as (h3 & Hr3 & Hc1' & Hc2' & Hl1' & Hl2').
  { unfold collection_at. by rewrite Hfr. }
  { done. }
  { by rewrite Hfr. }
  { done. }
  { done. }
  exists h3, c1, c2. split; [|split; [done|split]].
  - unfold two_collections.
    erewrite bind_ok by exact Hr1. erewrite bind_ok by exact Hr2.
    by erewrite bind_ok by exact Hr3.
  - apply contents_unfold. by exists l1.
  - apply contents_unfold. by exists l2.
Qed.

Lemma on_heap_run {A} (m : exec heap A) (h h' : heap) (out : list string)
    (r : result A) :
  m h = (h', r) → on_heap m (h, out) = ((h', out), r).
Proof. intros H. unfold on_heap. simpl. by rewrite H. Qed.

Lemma print_loop (fuel : nat) :
  ∀ (h : heap) (out : list string) cur l i xs,
  cursor_at h cur l i → h !! l = Some (OList xs) →
  Forall printable (drop i xs) →
  (length xs - i < fuel)%nat →
  ∃ h', for_next fuel cur (λ fruit, text ← str_of fruit; print text) (h, out)
          = ((h', out ++ (text_of <$> drop i xs)), Ok true) ∧
        ∀ l', l' ≠ cur → h' !! l' = h !! l'.
Proof.
  induction fuel as [|fuel IH]; intros h out cur l i xs Hc Hl Hp Hlt; [lia|].
  assert (cur ≠ l) by (intros ->; unfold cursor_at in Hc; congruence).
  destruct (xs !! i) as [x|] eqn:Hx.
  - pose proof (next_value _ _ _ _ _ _ Hc Hl Hx) as Hn.
    apply lookup_lt_Some in Hx as Hi.
    erewrite (drop_S xs x i) in Hp by done.
    apply Forall_cons in Hp as [Hpx Hp].
    set (h1 := <[cur := _]> h) in Hn.
    destruct (IH h1 (out ++ [text_of x]) cur l (i + 1)%nat xs)
      as (h' & Hr & Hfr).
    { unfold cursor_at, h1. by rewrite lookup_insert_eq. }
    { unfold h1. by rewrite lookup_insert_ne. }
    { by rewrite Nat.add_1_r. }
    { lia. }
    exists h'. split.
    + simpl.
      erewrite bind_ok by (apply attempt_run, on_heap_run; exact Hn).
      simpl. erewrite bind_ok.
      2:{ erewrite bind_ok by (by apply str_of_run). reflexivity. }
      simpl. rewrite Hr.
      erewrite (drop_S xs x i) by done. rewrite fmap_cons.
      rewrite Nat.add_1_r. by rewrite <- app_assoc.
    + intros l' Hl'. rewrite Hfr by done. unfold h1.
      by rewrite lookup_insert_ne.
  - apply lookup_ge_None in Hx as Hge.
    pose proof (next_exhausted _ _ _ _ _ Hc Hl Hge) as Hn.
    exists h. split; [|done].
    simpl. erewrite bind_ok by (apply attempt_run, on_heap_run; exact Hn).
    rewrite drop_ge by done. simpl. by rewrite app_nil_r.
Qed.

(** X4.  The loop [for fruit in collection: print(fruit)], over a
    collection whose elements [print] can format, prints the elements in
    append order, one line each, and then ends: the call of [next]
    after the last element raises [StopIteration], which ends the
    loop.  The collection is left as it was. *)
Theorem print_loop_ends (h : heap) (out : list string) (c : loc)
    (xs : list pyval) (fuel : nat) :
  contents h c xs → Forall printable xs → (length xs < fuel)%nat →
  ∃ h', print_all fuel c (h, out) = ((h', out ++ (text_of <$> xs)), Ok true) ∧
        contents h' c xs.
Proof.
  intros (l & Hc & Hl)%contents_unfold Hp Hfuel.
  assert (c ≠ l) by (intros ->; unfold collection_at in Hc; congruence).
  destruct (iter_cursor h c l Hc) as (cur & Hr1 & Hf1).
  set (h1 := <[cur := _]> h) in *.
  assert (cur ≠ l) by (intros ->; congruence).
  assert (cur ≠ c) by (intros ->; unfold collection_at in Hc; congruence).
  destruct (print_loop fuel h1 out cur l 0%nat xs) as (h2 & Hr2 & Hf2).
  { unfold cursor_at, h1. by rewrite lookup_insert_eq. }
  { unfold h1. by rewrite lookup_insert_ne. }
  { by rewrite drop_0. }
  { lia. }
  exists h2. split.
  - unfold print_all, for_in.
    erewrite bind_ok by (apply on_heap_run; exact Hr1).
    rewrite Hr2. by rewrite drop_0.
  - apply contents_unfold. exists l. unfold collection_at.
    rewrite !Hf2 by done. unfold h1. by rewrite !lookup_insert_ne.
Qed.

Lemma print_loop_ends_witness :
  contents apple_heap 1 [VStr "Apple"] ∧ Forall printable [VStr "Apple"] ∧
  (length [VStr "Apple"] < 2)%nat ∧
  ∃ h', print_all 2 1 (apple_heap, ["Iterating through the collection:"])
          = ((h', ["Iterating through the collection:"]
                    ++ (text_of <$> [VStr "Apple"])), Ok true) ∧
        contents h' 1 [VStr "Apple"].
Proof.
  assert (length [VStr "Apple"] < 2)%nat as Hlt by (simpl; lia).
  assert (Forall printable [VStr "Apple"]) as Hp.
  { apply Forall_cons; split; [vm_compute; reflexivity|apply Forall_nil_2]. }
  split; [exact apple_heap_contents|]. split; [exact Hp|]. split; [exact Hlt|].
  exact (print_loop_ends apple_heap ["Iterating through the collection:"] 1
           [VStr "Apple"] 2 apple_heap_contents Hp Hlt).
Defined.

(** The loop at an element that [print] cannot format: the elements
    before it are printed, the cursor has passed it, and the exception
    of [str] ends the loop. *)
Lemma print_loop_raises (pre : list pyval) :
  ∀ (fuel : nat) (h : heap) (out : list string) cur l i xs x post e,
  cursor_at h cur l i → h !! l = Some (OList xs) →
  drop i xs = pre ++ x :: post →
  Forall printable pre → py_str x = Raise e →
  (length pre < fuel)%nat →
  for_next fuel cur (λ fruit, text ← str_of fruit; print text) (h, out)
    = ((<[cur := OIterator {| it_items := l;
                              it_index := i + length pre + 1 |}]> h,
        out ++ (text_of <$> pre)), Raise e).
Proof.
  induction pre as [|p pre IH];
    intros fuel h out cur l i xs x post e Hc Hl Hd Hp Hx Hlt;
    (destruct fuel as [|fuel]; [simpl in Hlt; lia|]);
    assert (cur ≠ l) by (intros ->; unfold cursor_at in Hc; congruence).
  - assert (xs !! i = Some x) as Hxi.
    { rewrite <- (Nat.add_0_r i), <- lookup_drop, Hd. done. }
    pose proof (next_value _ _ _ _ _ _ Hc Hl Hxi) as Hn.
    simpl. erewrite bind_ok by (apply attempt_run, on_heap_run; exact Hn).
    simpl. erewrite bind_raise.
    2:{ erewrite bind_raise by (by apply str_of_raise). reflexivity. }
    by rewrite Nat.add_0_r, app_nil_r.
  - assert (xs !! i = Some p) as Hxi.
    { rewrite <- (Nat.add_0_r i), <- lookup_drop, Hd. done. }
    pose proof (next_value _ _ _ _ _ _ Hc Hl Hxi) as Hn.
    apply Forall_cons in Hp as [Hpp Hp].
    erewrite (drop_S xs p i) in Hd by done. simpl in Hd.
    injection Hd as Hd.
    set (h1 := <[cur := _]> h) in Hn.
    simpl. erewrite bind_ok by (apply attempt_run, on_heap_run; exact Hn).
    simpl. erewrite bind_ok.
    2:{ erewrite bind_ok by (by apply str_of_run). reflexivity. }
    simpl.
    rewrite (IH fuel h1 (out ++ [text_of p]) cur l (i + 1)%nat xs x post e).
    + unfold h1. rewrite insert_insert_eq, <- app_assoc.
      do 5 f_equal. lia.
    + unfold cursor_at, h1. by rewrite lookup_insert_eq.
    + unfold h1. by rewrite lookup_insert_ne.
    + by rewrite Nat.add_1_r.
    + done.
    + done.
    + simpl in Hlt. lia.
Qed.

Example print_loop_stops_at_huge_int :
  print_all 5 1 ({[ 0%nat := OList [VStr "Apple"; huge; VStr "Cherry"];
                    1%nat := OCollection {| coll_items := 0 |} ]}, [])
  = ((<[ 2%nat := OIterator {| it_items := 0; it_index := 2 |} ]>
        (<[ 2%nat := OIterator {| it_items := 0; it_index := 0 |} ]>
           {[ 0%nat := OList [VStr "Apple"; huge; VStr "Cherry"];
              1%nat := OCollection {| coll_items := 0 |} ]}),
      ["Apple"]), Raise ValueError).
Proof.
  unfold print_all, for_in.
  erewrite bind_ok.
  2:{ apply on_heap_run. unfold MyCollection.__iter__.
      erewrite bind_ok by reflexivity. reflexivity. }
  change (fresh _) with 2%nat.
  apply (print_loop_raises [VStr "Apple"] 5 _ [] 2 0 0
           [VStr "Apple"; huge; VStr "Cherry"] huge [VStr "Cherry"]).
  - reflexivity.
  - reflexivity.
  - reflexivity.
  - solve_printable.
  - exact py_str_huge.
  - simpl. lia.
Qed.

Lemma grow_loop (fuel : nat) :
  ∀ (h : heap) (out : list string) c cur l i L,
  collection_at h c l → cursor_at h cur l i → h !! l = Some (OList L) →
  (i < length L)%nat →
  ∃ h' ys, for_next fuel cur
             (λ item, on_heap (MyCollection.add_item c item)) (h, out)
             = ((h', out), Ok false) ∧
           length ys = fuel ∧
           h' !! l = Some (OList (L ++ ys)) ∧
           collection_at h' c l ∧
           ∀ k, (k < fuel)%nat → ys !! k = (L ++ ys) !! (i + k)%nat.
Proof.
  induction fuel as [|fuel IH]; intros h out c cur l i L Hc Hcur Hl Hi.
  - exists h, []. rewrite app_nil_r. repeat split; try done. intros k Hk. lia.
  - assert (cur ≠ l) by (intros ->; unfold cursor_at in Hcur; congruence).
    assert (c ≠ l) by (intros ->; unfold collection_at in Hc; congruence).
    assert (cur ≠ c).
    { intros ->. unfold cursor_at, collection_at in *. congruence. }
    destruct (lookup_lt_is_Some_2 L i Hi) as [x Hx].
    pose proof (next_value _ _ _ _ _ _ Hcur Hl Hx) as Hn.
    set (h1 := <[cur := _]> h) in Hn.
    assert (collection_at h1 c l) as Hc1.
    { unfold collection_at, h1. by rewrite lookup_insert_ne. }
    assert (h1 !! l = Some (OList L)) as Hl1.
    { unfold h1. by rewrite lookup_insert_ne. }
    pose proof (add_item_list h1 c l L x Hc1 Hl1) as Ha.
    set (h2 := <[l := _]> h1) in Ha.
    destruct (IH h2 out c cur l (i + 1)%nat (L ++ [x]))
      as (h' & ys & Hr & Hlen & Hl' & Hc' & Hk).
    { unfold collection_at, h2. by rewrite lookup_insert_ne. }
    { unfold cursor_at, h2, h1. rewrite lookup_insert_ne by done.
      by rewrite lookup_insert_eq. }
    { unfold h2. by rewrite lookup_insert_eq. }
    { rewrite length_app. simpl. lia. }
    exists h', (x :: ys). split; [|split; [|split; [|split]]].
    + simpl.
      erewrite bind_ok by (apply attempt_run, on_heap_run; exact Hn).
      simpl. erewrite bind_ok by (apply on_heap_run; exact Ha).
      exact Hr.
    + simpl. by rewrite Hlen.
    + by rewrite <- app_assoc in Hl'.
    + done.
    + intros [|k] Hlt.
      * simpl. rewrite Nat.add_0_r. by rewrite lookup_app_l.
      * simpl. rewrite Hk by lia. rewrite <- app_assoc. simpl.
        f_equal. lia.
Qed.

(** X5.  The loop [for item in collection: collection.add_item(item)]
    over a collection that is not empty never ends: the cursor reads the
    list that the body makes longer, so however many iterations have
    run, [next] has not raised [StopIteration]; after [fuel] iterations
    the collection has [fuel] more items, each a copy of the item the
    cursor stood on. *)
Theorem append_while_iterating_never_ends (h : heap) (out : list string)
    (c : loc) (xs : list pyval) (fuel : nat) :
  contents h c xs → xs ≠ [] →
  ∃ h' ys, append_while_iterating fuel c (h, out) = ((h', out), Ok false) ∧
           length ys = fuel ∧
           contents h' c (xs ++ ys) ∧
           ∀ k, (k < fuel)%nat → ys !! k = (xs ++ ys) !! k.
Proof.
  intros (l & Hc & Hl)%contents_unfold Hne.
  assert (c ≠ l) by (intros ->; unfold collection_at in Hc; congruence).
  destruct (iter_cursor h c l Hc) as (cur & Hr1 & Hf1).
  set (h1 := <[cur := _]> h) in *.
  assert (cur ≠ l) by (intros ->; congruence).
  assert (cur ≠ c) by (intros ->; unfold collection_at in Hc; congruence).
  destruct (grow_loop fuel h1 out c cur l 0%nat xs)
    as (h2 & ys & Hr2 & Hlen & Hl2 & Hc2 & Hk).
  { unfold collection_at, h1. by rewrite lookup_insert_ne. }
  { unfold cursor_at, h1. by rewrite lookup_insert_eq. }
  { unfold h1. by rewrite lookup_insert_ne. }
  { destruct xs; [done|simpl; lia]. }
  exists h2, ys. split; [|split; [done|split]].
  - unfold append_while_iterating, for_in.
    erewrite bind_ok by (apply on_heap_run; exact Hr1). exact Hr2.
  - apply contents_unfold. by exists l.
  - intros k Hlt. by rewrite Hk.
Qed.

Lemma append_while_iterating_never_ends_witness :
  contents apple_heap 1 [VStr "Apple"] ∧ [VStr "Apple"] ≠ [] ∧
  ∃ h' ys, append_while_iterating 5 1 (apple_heap, []) = ((h', []), Ok false) ∧
           length ys = 5%nat ∧
           contents h' 1 ([VStr "Apple"] ++ ys) ∧
           ∀ k, (k < 5)%nat → ys !! k = ([VStr "Apple"] ++ ys) !! k.
Proof.
  assert ([VStr "Apple"] ≠ []) as Hne by discriminate.
  split; [exact apple_heap_contents|]. split; [exact Hne|].
  exact (append_while_iterating_never_ends apple_heap [] 1 [VStr "Apple"] 5
           apple_heap_contents Hne).
Defined.
End iterator_client_props.


(** ** Clients of observer_pattern.py *)

Section observer_client_props.
Import ObserverPattern ObserverClients.

Lemma detach_absent (w : world) (self o : loc) (obs : list loc) (st : pyval) :
  subject_at (heap w) self obs st → o ∉ obs →
  Subject.detach self o w = (w, Raise ValueError).
Proof.
  intros Hs Hn. unfold Subject.detach.
  erewrite bind_ok; [|by unfold get_subject; rewrite Hs]. simpl.
  by rewrite list_remove_absent.
Qed.

Lemma registrations_cons (x o : loc) (l : list loc) :
  registrations x (o :: l) =
  (registrations x l + if decide (x = o) then 1 else 0)%nat.
Proof.
  unfold registrations. rewrite filter_cons.
  destruct (decide (o = x)) as [->|Hne].
  - rewrite decide_True by done. simpl. lia.
  - rewrite decide_False by congruence. lia.
Qed.

(** X6.  [detach] succeeds exactly when the subscriber is attached.
    When it succeeds it takes the subscriber's first registration out
    of the list and changes nothing else: the other registrations keep
    their order, the state stays, nothing is printed and nobody is
    notified. *)
Theorem detach_iff_attached (w : world) (self o : loc) (obs : list loc)
    (st : pyval) :
  subject_at (heap w) self obs st →
  ((∃ w', Subject.detach self o w = (w', Ok ())) ↔ o ∈ obs) ∧
  (∀ w', Subject.detach self o w = (w', Ok ()) →
     ∃ l1 l2, obs = l1 ++ o :: l2 ∧ (o ∉ l1) ∧
       subject_at (heap w') self (l1 ++ l2) st ∧
       quiet w w' ∧
       (∀ l, l ≠ self → heap w' !! l = heap w !! l) ∧
       (∀ x, registrations x obs =
             (registrations x (l1 ++ l2) + if decide (x = o) then 1 else 0)%nat)).
Proof.
  intros Hs.
  assert (o ∈ obs → ∃ l1 l2, obs = l1 ++ o :: l2 ∧ (o ∉ l1) ∧
    Subject.detach self o w =
      ({| heap := <[self := OSubject {| _observers := l1 ++ l2;
                                        _state := st |}]> (heap w);
          stdout := stdout w; received := received w |}, Ok ())) as Hin.
  { intros (l1 & l2 & -> & Hn)%list_elem_of_split_l.
    exists l1, l2. split; [done|]. split; [done|]. by apply detach_run. }
  split; [split|].
  - intros [w' Hr]. destruct (decide (o ∈ obs)) as [|Hn]; [done|].
    rewrite (detach_absent w self o obs st Hs Hn) in Hr. discriminate.
  - intros (l1 & l2 & _ & _ & Hr)%Hin. eauto.
  - intros w' Hr. destruct (decide (o ∈ obs)) as [Hi|Hn].
    2:{ rewrite (detach_absent w self o obs st Hs Hn) in Hr. discriminate. }
    destruct (Hin Hi) as (l1 & l2 & Hobs & Hn & Hr').
    rewrite Hr' in Hr. inversion Hr; subst w'. clear Hr.
    exists l1, l2. split; [done|]. split; [done|]. simpl. split.
    { unfold subject_at. by rewrite lookup_insert_eq. }
    split; [done|]. split.
    { intros l Hl. by rewrite lookup_insert_ne. }
    intros x. rewrite Hobs, !registrations_app, registrations_cons. lia.
Qed.

Lemma detach_iff_attached_witness :
  subject_at (heap three_attached) 0 [1%nat; 2%nat; 3%nat] VNone ∧
  ((∃ w', Subject.detach 0 2 three_attached = (w', Ok ()))
     ↔ 2%nat ∈ [1%nat; 2%nat; 3%nat]) ∧
  (∀ w', Subject.detach 0 2 three_attached = (w', Ok ()) →
     ∃ l1 l2, [1%nat; 2%nat; 3%nat] = l1 ++ 2%nat :: l2 ∧ (2%nat ∉ l1) ∧
       subject_at (heap w') 0 (l1 ++ l2) VNone ∧
       quiet three_attached w' ∧
       (∀ l, l ≠ 0%nat → heap w' !! l = heap three_attached !! l) ∧
       (∀ x, registrations x [1%nat; 2%nat; 3%nat] =
             (registrations x (l1 ++ l2)
              + if decide (x = 2%nat) then 1 else 0)%nat)).
Proof.
  assert (subject_at (heap three_attached) 0 [1%nat; 2%nat; 3%nat] VNone)
    as Hs by (vm_compute; reflexivity).
  split; [exact Hs|].
  exact (detach_iff_attached three_attached 0 2 [1%nat; 2%nat; 3%nat] VNone Hs).
Defined.

Lemma moved_to_end_same (o : loc) (l : list loc) :
  l ++ [o] = o :: l ↔ l = replicate (length l) o.
Proof.
  induction l as [|x l IH]; simpl.
  - done.
  - split.
    + intros Heq. injection Heq as Hx Hl. subst x.
      f_equal. apply IH. exact Hl.
    + intros Heq. injection Heq as Hx Hl. subst x.
      f_equal. apply IH. exact Hl.
Qed.

(** X7.  [attach] followed by [detach] of the same subscriber always
    succeeds and prints nothing; the list afterwards is the list before
    with the subscriber's first registration taken out and the
    subscriber put at the end.  For a subscriber that was not attached
    the two calls cancel and the world is the world before.  For one
    that was attached, [detach] removes the old, first registration and
    the new one stays at the end: the world is the world before only
    when nothing but registrations of this subscriber followed that
    first one, and otherwise the subscriber has moved to the last place
    in the notification order. *)
Theorem attach_then_detach_effect (w : world) (self o : loc)
    (obs : list loc) (st : pyval) :
  subject_at (heap w) self obs st →
  ∃ w' obs', attach_then_detach self o w = (w', Ok ()) ∧
             subject_at (heap w') self obs' st ∧
             quiet w w' ∧
             (∀ l, l ≠ self → heap w' !! l = heap w !! l) ∧
             (o ∉ obs → obs' = obs ∧ w' = w) ∧
             (∀ l1 l2, obs = l1 ++ o :: l2 → o ∉ l1 →
                obs' = l1 ++ l2 ++ [o] ∧
                (w' = w ↔ l2 = replicate (length l2) o)).
Proof.
  intros Hs.
  pose proof (attach_run w self o obs st Hs) as Hr1.
  set (w1 := {| heap := _ |}) in Hr1.
  assert (subject_at (heap w1) self (obs ++ [o]) st) as Hs1.
  { unfold subject_at, w1. simpl. by rewrite lookup_insert_eq. }
  assert (∀ l1 l2, obs ++ [o] = l1 ++ o :: l2 → o ∉ l1 →
    attach_then_detach self o w =
      ({| heap := <[self := OSubject {| _observers := l1 ++ l2;
                                        _state := st |}]> (heap w);
          stdout := stdout w; received := received w |}, Ok ())) as Hrun.
  { intros l1 l2 Heq Hn. rewrite Heq in Hs1.
    pose proof (detach_run w1 self o l1 l2 st Hs1 Hn) as Hr2.
    unfold attach_then_detach. erewrite bind_ok by exact Hr1.
    rewrite Hr2. unfold w1. simpl. by rewrite insert_insert_eq. }
  assert (∀ obs', <[self := OSubject {| _observers := obs'; _state := st |}]>
                    (heap w) = heap w ↔ obs' = obs) as Hsame.
  { intros obs'. split.
    - intros Heq. assert (heap w !! self
        = Some (OSubject {| _observers := obs'; _state := st |})) as Hl.
      { rewrite <- Heq. by rewrite lookup_insert_eq. }
      unfold subject_at in Hs. rewrite Hs in Hl. by inversion Hl.
    - intros ->. by apply insert_id. }
  destruct (decide (o ∈ obs)) as [Hin|Hnin].
  - apply list_elem_of_split_l in Hin as (l1 & l2 & Hobs & Hn).
    assert (obs ++ [o] = l1 ++ o :: (l2 ++ [o])) as Heq.
    { rewrite Hobs. by rewrite <- app_assoc. }
    exists {| heap := <[self := OSubject {| _observers := l1 ++ l2 ++ [o];
                                            _state := st |}]> (heap w);
              stdout := stdout w; received := received w |}, (l1 ++ l2 ++ [o]).
    split; [by apply Hrun|]. split.
    { unfold subject_at. simpl. by rewrite lookup_insert_eq. }
    split; [done|]. split.
    { intros l Hl. simpl. by rewrite lookup_insert_ne. }
    split.
    { intros Hnot. exfalso. apply Hnot. rewrite Hobs.
      apply elem_of_app. right. by left. }
    intros l1' l2' Hobs' Hn'.
    assert (l1' = l1 ∧ l2' = l2) as [-> ->].
    { rewrite Hobs in Hobs'. clear -Hobs' Hn Hn'.
      revert l1' Hobs' Hn'. induction l1 as [|x l1 IH]; intros l1' Heq Hn'.
      - destruct l1' as [|y l1']; simpl in Heq.
        + by inversion Heq.
        + inversion Heq; subst. exfalso. apply Hn'. by left.
      - destruct l1' as [|y l1']; simpl in Heq.
        + inversion Heq; subst. exfalso. apply Hn. by left.
        + inversion Heq; subst.
          apply not_elem_of_cons in Hn as [_ Hn].
          apply not_elem_of_cons in Hn' as [_ Hn'].
          destruct (IH Hn l1') as [-> ->]; done. }
    split; [done|].
    rewrite <- moved_to_end_same. split.
    + intros Hw. assert (l1 ++ l2 ++ [o] = obs) as Hl.
      { apply Hsame. apply (f_equal heap) in Hw. exact Hw. }
      rewrite Hobs in Hl. by apply app_inv_head in Hl.
    + intros Hl.
      assert (<[self := OSubject {| _observers := l1 ++ l2 ++ [o];
                                    _state := st |}]> (heap w) = heap w) as Hh.
      { apply Hsame. rewrite Hl. by rewrite Hobs. }
      rewrite Hh. by destruct w.
  - exists w, obs.
    assert (attach_then_detach self o w = (w, Ok ())) as Hr.
    { rewrite (Hrun obs []) by done. rewrite app_nil_r.
      rewrite (proj2 (Hsame obs)) by done. by destruct w. }
    split; [done|]. split; [done|]. split; [done|]. split; [done|].
    split; [done|].
    intros l1 l2 Hobs Hn. exfalso. apply Hnin. rewrite Hobs.
    apply elem_of_app. right. by left.
Qed.

Lemma attach_then_detach_effect_witness :
  subject_at (heap three_attached) 0 [1%nat; 2%nat; 3%nat] VNone ∧
  ∃ w' obs', attach_then_detach 0 1 three_attached = (w', Ok ()) ∧
             subject_at (heap w') 0 obs' VNone ∧
             quiet three_attached w' ∧
             (∀ l, l ≠ 0%nat → heap w' !! l = heap three_attached !! l) ∧
             (1%nat ∉ [1%nat; 2%nat; 3%nat] →
              obs' = [1%nat; 2%nat; 3%nat] ∧ w' = three_attached) ∧
             (∀ l1 l2, [1%nat; 2%nat; 3%nat] = l1 ++ 1%nat :: l2 → 1%nat ∉ l1 →
                obs' = l1 ++ l2 ++ [1%nat] ∧
                (w' = three_attached ↔ l2 = replicate (length l2) 1%nat)).
Proof.
  assert (subject_at (heap three_attached) 0 [1%nat; 2%nat; 3%nat] VNone)
    as Hs by (vm_compute; reflexivity).
  split; [exact Hs|].
  exact (attach_then_detach_effect three_attached 0 1 [1%nat; 2%nat; 3%nat]
           VNone Hs).
Defined.

Example attached_subscriber_moves_last :
  (attach_then_detach 0 1 three_attached).2 = Ok () ∧
  heap (attach_then_detach 0 1 three_attached).1 !! 0%nat =
    Some (OSubject {| _observers := [2%nat; 3%nat; 1%nat];
                      _state := VNone |}).
Proof. split; vm_compute; reflexivity. Qed.

Example last_subscriber_stays :
  attach_then_detach 0 3 three_attached = (three_attached, Ok ()).
Proof. vm_compute. reflexivity. Qed.

Example new_subscriber_leaves_no_trace :
  attach_then_detach 0 7 three_attached = (three_attached, Ok ()).
Proof. vm_compute. reflexivity. Qed.

Lemma set_states_run (vs : list pyval) :
  ∀ (w : world) (self : loc) (obs : list loc) (st : pyval),
  subject_at (heap w) self obs st → observers_ok (heap w) obs →
  names_printable (heap w) obs → Forall printable vs →
  ∃ w', set_states self vs w = (w', Ok ()) ∧
        subject_at (heap w') self obs (default st (last vs)) ∧
        received w' =
          received w ++ concat ((λ v, (λ o, (o, v)) <$> obs) <$> vs) ∧
        length (stdout w') = (length (stdout w) + length vs * length obs)%nat.
Proof.
  induction vs as [|v vs IH]; intros w self obs st Hs Hok Hnames Hvs.
  - exists w. simpl. rewrite app_nil_r. split; [done|]. split; [done|].
    split; [done|lia].
  - apply Forall_cons in Hvs as [Hv Hvs].
    pose proof (state_setter_run w self obs st v Hs Hok
                  (can_print_intro _ _ _ Hnames Hv)) as Hr.
    set (w1 := {| heap := _ |}) in Hr.
    destruct (IH w1 self obs v) as (w' & Hr' & Hs' & Hrec & Hlen).
    { unfold subject_at, w1. simpl. by rewrite lookup_insert_eq. }
    { unfold w1. simpl. by eapply observers_ok_insert. }
    { unfold w1. simpl. by eapply names_printable_insert. }
    { done. }
    exists w'. split; [|split; [|split]].
    + unfold set_states in *. simpl. by erewrite bind_ok by exact Hr.
    + rewrite last_cons. by destruct (last vs).
    + rewrite Hrec. unfold w1. simpl. by rewrite app_assoc.
    + rewrite Hlen. unfold w1. simpl.
      rewrite length_app, length_fmap. lia.
Qed.

(** X8.  A series of state assignments, of values that [update] can
    print to observers whose names it can print: every assignment, in
    order, delivers its value to every registration, in attachment
    order, also when the value assigned is the one the subject already
    has (the setter does not compare).  So [k] assignments to a subject
    with [n] registrations make [k * n] calls and print [k * n] lines,
    and the state ends as the last value assigned. *)
Theorem set_states_delivers (w : world) (self : loc) (obs : list loc)
    (st : pyval) (vs : list pyval) :
  subject_at (heap w) self obs st → observers_ok (heap w) obs →
  names_printable (heap w) obs → Forall printable vs →
  ∃ w', set_states self vs w = (w', Ok ()) ∧
        subject_at (heap w') self obs (default st (last vs)) ∧
        new_calls w w' = concat ((λ v, (λ o, (o, v)) <$> obs) <$> vs) ∧
        length (new_calls w w') = (length vs * length obs)%nat ∧
        length (stdout w') = (length (stdout w) + length vs * length obs)%nat.
Proof.
  intros Hs Hok Hnames Hvs.
  destruct (set_states_run vs w self obs st Hs Hok Hnames Hvs)
    as (w' & Hr & Hs' & Hrec & Hlen).
  pose proof (new_calls_app w w' _ Hrec) as Hnew.
  exists w'. rewrite Hnew. split; [done|]. split; [done|]. split; [done|].
  split; [|done].
  clear. induction vs as [|v vs IH]; [done|].
  rewrite fmap_cons, concat_cons, length_app, length_fmap, IH.
  simpl. lia.
Qed.

Lemma set_states_delivers_witness :
  subject_at (heap three_attached) 0 [1%nat; 2%nat; 3%nat] VNone ∧
  observers_ok (heap three_attached) [1%nat; 2%nat; 3%nat] ∧
  names_printable (heap three_attached) [1%nat; 2%nat; 3%nat] ∧
  Forall printable [VInt 10; VInt 10; VInt 20] ∧
  ∃ w', set_states 0 [VInt 10; VInt 10; VInt 20] three_attached = (w', Ok ()) ∧
        subject_at (heap w') 0 [1%nat; 2%nat; 3%nat]
          (default VNone (last [VInt 10; VInt 10; VInt 20])) ∧
        new_calls three_attached w' =
          concat ((λ v, (λ o, (o, v)) <$> [1%nat; 2%nat; 3%nat])
                    <$> [VInt 10; VInt 10; VInt 20]) ∧
        length (new_calls three_attached w') =
          (length [VInt 10; VInt 10; VInt 20]
           * length [1%nat; 2%nat; 3%nat])%nat ∧
        length (stdout w') =
          (length (stdout three_attached)
           + length [VInt 10; VInt 10; VInt 20]
             * length [1%nat; 2%nat; 3%nat])%nat.
Proof.
  destruct three_attached_ok as [Hs Hok].
  assert (Forall printable [VInt 10; VInt 10; VInt 20]) as Hvs
    by solve_printable.
  split; [exact Hs|]. split; [exact Hok|].
  split; [exact three_attached_names|]. split; [exact Hvs|].
  exact (set_states_delivers three_attached 0 [1%nat; 2%nat; 3%nat] VNone
           [VInt 10; VInt 10; VInt 20] Hs Hok three_attached_names Hvs).
Defined.

(** X9.  Only an assignment to [state] notifies.  Constructing a
    subject or an observer, attaching, detaching and reading the state
    print nothing and call no [update], whether they succeed or fail;
    in particular [attach] does not hand the current state to the new
    subscriber. *)
Theorem only_assignment_notifies (w : world) (self o : loc) (nm : pyval) :
  quiet w (Subject.__init__ w).1 ∧
  quiet w (Observer.__init__ nm w).1 ∧
  quiet w (Subject.attach self o w).1 ∧
  quiet w (Subject.detach self o w).1 ∧
  quiet w (Subject.state self w).1.
Proof.
  unfold quiet, Subject.__init__, Observer.__init__, Subject.attach,
    Subject.detach, Subject.state, alloc, store, modify, raise, get_subject,
    mbind, exec_bind, mret, exec_ret.
  repeat split; try done;
    destruct (heap w !! self) as [[s|?]|]; simpl; try done;
    destruct (list_remove o (_observers s)); done.
Qed.

(** X10.  A subject that has just been constructed has the state
    [None] and no subscribers; assigning its state then stores the
    value, prints nothing and calls nobody. *)
Theorem new_subject_silent (w : world) (v : pyval) :
  ∃ w' s, new_subject_then_set v w = (w', Ok (s, VNone)) ∧
          heap w !! s = None ∧
          subject_at (heap w') s [] v ∧
          quiet w w' ∧
          (∀ l, l ≠ s → heap w' !! l = heap w !! l).
Proof.
  set (s := fresh (dom (heap w))).
  assert (heap w !! s = None) as Hf.
  { apply (not_elem_of_dom (D:=gset nat)), is_fresh. }
  set (w1 := {| heap := <[s := OSubject {| _observers := [];
                                           _state := VNone |}]> (heap w);
                stdout := stdout w; received := received w |}).
  assert (subject_at (heap w1) s [] VNone) as Hs1.
  { unfold subject_at, w1. simpl. by rewrite lookup_insert_eq. }
  pose proof (state_setter_run w1 s [] VNone v Hs1 (Forall_nil_2 _)
                (Forall_nil_2 _)) as Hr.
  eexists _, s. split; [|split; [done|split; [|split]]].
  - unfold new_subject_then_set.
    erewrite bind_ok by reflexivity. fold s. fold w1.
    erewrite bind_ok.
    2:{ unfold Subject.state.
        erewrite bind_ok; [|by unfold get_subject; rewrite Hs1]. done. }
    erewrite bind_ok by exact Hr. done.
  - unfold subject_at. simpl. by rewrite lookup_insert_eq.
  - unfold quiet. simpl. by rewrite !app_nil_r.
  - intros l Hl. simpl. by rewrite !lookup_insert_ne.
Qed.
End observer_client_props.


(** ** Clients of singleton_pattern.py *)

Section singleton_client_props.
Import SingletonPattern SingletonClients.

Lemma request_increment_step (w : world) :
  wf w →
  ∃ w', (s ← Singleton.__new__; Singleton.increment s) w = (w', Ok ()) ∧
        wf w' ∧ current w' = current w + 1.
Proof.
  intros Hwf.
  assert (∃ w1 l n, Singleton.__new__ w = (w1, Ok (Some l)) ∧
            _instance w1 = Some l ∧
            heap w1 !! l = Some {| value := Some (VInt n) |} ∧
            n = current w ∧ wf w1) as (w1 & l & n & Hr1 & Hi1 & Hl1 & Hn & Hwf1).
  { destruct (_instance w) as [l|] eqn:Hi.
    - destruct (Hwf l Hi) as [n Hl]. exists w, l, n.
      split; [by apply new_existing|]. split; [done|]. split; [done|].
      split; [|done]. unfold current. by rewrite Hi, Hl.
    - destruct (new_first w Hi) as (l & Hf & Hr).
      eexists _, l, 0. split; [exact Hr|]. simpl. split; [done|].
      split; [by rewrite lookup_insert_eq|]. split.
      + unfold current. by rewrite Hi.
      + intros l' Hl'. simpl in *. inversion Hl'; subst l'.
        exists 0. by rewrite lookup_insert_eq. }
  eexists. split; [|split].
  - erewrite bind_ok by exact Hr1. by apply increment_run.
  - intros l' Hl'. simpl in *. rewrite Hi1 in Hl'. inversion Hl'; subst l'.
    exists (n + 1). by rewrite lookup_insert_eq.
  - unfold current at 1. simpl. rewrite Hi1, lookup_insert_eq. by rewrite Hn.
Qed.

Lemma request_and_increment_run (k : nat) :
  ∀ w : world, wf w →
  ∃ w', request_and_increment k w = (w', Ok ()) ∧ wf w' ∧
        current w' = current w + Z.of_nat k.
Proof.
  induction k as [|k IH]; intros w Hwf.
  - exists w. split; [done|]. split; [done|]. lia.
  - destruct (request_increment_step w Hwf) as (w1 & Hr1 & Hwf1 & Hc1).
    destruct (IH w1 Hwf1) as (w' & Hr' & Hwf' & Hc').
    exists w'. split; [|split; [done|lia]].
    unfold request_and_increment in *. simpl. by erewrite bind_ok by exact Hr1.
Qed.

(** X11.  The counter belongs to the one instance, not to the
    references: asking for the instance anew before each of [k]
    increments still adds up, and a further request reads the value
    there was before plus [k].  When no instance existed before, the
    first request made it with the value 0, so the value read is [k]. *)
Theorem requests_share_counter (w : world) (k : nat) :
  wf w →
  ∃ w', (request_and_increment k ;; read_value) w =
          (w', Ok (VInt (current w + Z.of_nat k))) ∧
        (_instance w = None → current w = 0).
Proof.
  intros Hwf.
  destruct (request_and_increment_run k w Hwf) as (w1 & Hr1 & Hwf1 & Hc1).
  destruct (new_run w1 Hwf1) as (w2 & l & Hr2 & Hi2 & Hwf2 & Hsame).
  destruct (Hwf2 l Hi2) as [n Hl].
  assert (n = current w1) as ->.
  { destruct (_instance w1) as [l1|] eqn:Hi1.
    - rewrite (Hsame l1 eq_refl) in *. unfold current.
      rewrite Hi1 in Hi2. inversion Hi2; subst l1. by rewrite Hi1, Hl.
    - destruct (new_first w1 Hi1) as (l' & _ & Hr').
      rewrite Hr' in Hr2. inversion Hr2; subst. simpl in Hl.
      rewrite lookup_insert_eq in Hl. inversion Hl.
      unfold current. by rewrite Hi1. }
  exists w2. split.
  - erewrite bind_ok by exact Hr1. unfold read_value.
    erewrite bind_ok by exact Hr2.
    unfold getattr_value. rewrite Hl. by rewrite Hc1.
  - intros Hn. unfold current. by rewrite Hn.
Qed.

Lemma requests_share_counter_witness :
  wf initial ∧
  ∃ w', (request_and_increment 4 ;; read_value) initial =
          (w', Ok (VInt (current initial + Z.of_nat 4))) ∧
        (_instance initial = None → current initial = 0).
Proof.
  split.
  - exact wf_initial.
  - exact (requests_share_counter initial 4 wf_initial).
Defined.

Lemma one_object_new (w : world) :
  one_object w →
  ∃ w' l, Singleton.__new__ w = (w', Ok (Some l)) ∧ one_object w' ∧
          _instance w' = Some l.
Proof.
  intros [[Hi Hh]|(l & n & Hi & Hh)].
  - destruct (new_first w Hi) as (l & _ & Hr).
    eexists _, l. split; [exact Hr|]. split; [|done].
    right. exists l, 0. simpl. split; [done|].
    by rewrite Hh, insert_empty.
  - exists w, l. split; [by apply new_existing|]. split; [|done].
    right. by exists l, n.
Qed.

Lemma one_object_increment (w : world) (r : option loc) :
  one_object w →
  ∃ w' res, Singleton.increment r w = (w', res) ∧ one_object w' ∧
            _instance w' = _instance w.
Proof.
  intros Hone. destruct r as [l'|].
  2:{ exists w, (Raise AttributeError). by repeat split. }
  destruct Hone as [[Hi Hh]|(l & n & Hi & Hh)].
  - exists w, (Raise AttributeError). split; [|split; [by left|done]].
    unfold Singleton.increment.
    erewrite bind_raise; [done|].
    unfold getattr_value. by rewrite Hh, lookup_empty.
  - destruct (decide (l' = l)) as [->|Hne].
    + eexists _, _. split; [|split].
      * apply increment_run. rewrite Hh. by apply lookup_singleton_eq.
      * right. exists l, (n + 1). simpl. split; [done|].
        by rewrite Hh, insert_singleton_eq.
      * done.
    + exists w, (Raise AttributeError).
      split; [|split; [right; by exists l, n|done]].
      unfold Singleton.increment.
      erewrite bind_raise; [done|].
      unfold getattr_value. by rewrite Hh, lookup_singleton_ne.
Qed.

Lemma one_object_run (ops : list op) :
  ∀ w : world, one_object w →
  ∃ w' rs, run ops w = (w', Ok rs) ∧ one_object w' ∧
           (is_Some (_instance w) ∨ Construct ∈ ops → is_Some (_instance w')).
Proof.
  induction ops as [|[|r] ops IH]; intros w Hone.
  - exists w, []. split; [done|]. split; [done|].
    intros [?|Hin]; [done|]. by apply elem_of_nil in Hin.
  - destruct (one_object_new w Hone) as (w1 & l & Hr1 & Hone1 & Hi1).
    destruct (IH w1 Hone1) as (w' & rs & Hr & Hone' & Hinst).
    exists w', (Some l :: rs). split; [|split; [done|]].
    + simpl. erewrite bind_ok by exact Hr1. by erewrite bind_ok by exact Hr.
    + intros _. apply Hinst. left. by rewrite Hi1.
  - destruct (one_object_increment w r Hone) as (w1 & res & Hr1 & Hone1 & Hi1).
    destruct (IH w1 Hone1) as (w' & rs & Hr & Hone' & Hinst).
    exists w', rs. split; [|split; [done|]].
    + simpl. erewrite bind_ok by (by apply attempt_run). done.
    + intros [Hs|Hin]; apply Hinst.
      * left. by rewrite Hi1.
      * right. apply elem_of_cons in Hin as [?|?]; [done|done].
Qed.

(** X12.  However many construction requests and increments a program
    makes, starting with no instance, no second object ever comes into
    being: the heap holds at most one [Singleton] object, and exactly
    one, the recorded instance, as soon as there was a request. *)
Theorem never_a_second_object (ops : list op) :
  ∃ w' rs, run ops initial = (w', Ok rs) ∧
           (size (heap w') ≤ 1)%nat ∧
           (Construct ∈ ops →
            ∃ l, _instance w' = Some l ∧ dom (heap w') = {[ l ]}).
Proof.
  destruct (one_object_run ops initial) as (w' & rs & Hr & Hone & Hinst).
  { by left. }
  exists w', rs. split; [done|]. split.
  - destruct Hone as [[_ Hh]|(l & n & _ & Hh)]; rewrite Hh.
    + rewrite map_size_empty. lia.
    + by rewrite map_size_singleton.
  - intros Hin. destruct Hone as [[Hi _]|(l & n & Hi & Hh)].
    + destruct Hinst as [? Hs]; [by right|]. congruence.
    + exists l. split; [done|]. rewrite Hh. by rewrite dom_singleton_L.
Qed.
End singleton_client_props.

(** ** Clients of decorator_pattern.py *)

Section decorator_client_props.
Import DecoratorPattern DecoratorClients.
Context {Args R : Type}.

Lemma farewell_iter_ok (m : nat) (func : Args → exec stdout R) (args : Args)
    (out out' : stdout) (r : R) :
  func args out = (out', Ok r) →
  Nat.iter m farewell func args out
    = (out' ++ replicate m "Goodbye!", Ok r).
Proof.
  intros Hf. induction m as [|m IH].
  - simpl. by rewrite app_nil_r.
  - simpl. unfold farewell at 1. erewrite bind_ok by exact IH.
    erewrite bind_ok by reflexivity. simpl. unfold mret, exec_ret.
    by rewrite <- app_assoc, <- replicate_S_end.
Qed.

Lemma farewell_iter_raise (m : nat) (func : Args → exec stdout R) (args : Args)
    (out out' : stdout) (e : exn) :
  func args out = (out', Raise e) →
  Nat.iter m farewell func args out = (out', Raise e).
Proof.
  intros Hf. induction m as [|m IH]; [done|].
  simpl. unfold farewell at 1. by erewrite bind_raise by exact IH.
Qed.

Lemma greet_iter (n : nat) (func : Args → exec stdout R) (args : Args) :
  ∀ out : stdout,
  Nat.iter n greet func args out = func args (out ++ replicate n "Hello!").
Proof.
  induction n as [|n IH]; intros out.
  - simpl. by rewrite app_nil_r.
  - simpl. unfold greet at 1. erewrite bind_ok by reflexivity. simpl.
    rewrite IH. by rewrite <- app_assoc.
Qed.

(** X13.  Wrappers stack to any depth: under [n] layers of [greet] and
    [m] layers of [farewell], a call prints ["Hello!"] [n] times, then
    runs the function with the arguments it was given, then prints
    ["Goodbye!"] [m] times, and returns the function's result
    unchanged. *)
Theorem stack_returns (n m : nat) (func : Args → exec stdout R) (args : Args)
    (out out' : stdout) (r : R) :
  func args (out ++ replicate n "Hello!") = (out', Ok r) →
  stack n m func args out = (out' ++ replicate m "Goodbye!", Ok r).
Proof.
  intros Hf. unfold stack. rewrite greet_iter. by apply farewell_iter_ok.
Qed.

(** X14.  Neither wrapper catches anything: when the wrapped function
    raises, the exception leaves the whole stack unchanged, the
    ["Hello!"] lines have been printed before, and no ["Goodbye!"] is
    printed at all. *)
Theorem stack_raises (n m : nat) (func : Args → exec stdout R) (args : Args)
    (out out' : stdout) (e : exn) :
  func args (out ++ replicate n "Hello!") = (out', Raise e) →
  stack n m func args out = (out', Raise e).
Proof.
  intros Hf. unfold stack. rewrite greet_iter. by apply farewell_iter_raise.
Qed.
End decorator_client_props.

Lemma stack_returns_witness :
  DecoratorPattern.say_name_body (VStr "Alice") ([] ++ replicate 2 "Hello!")
    = (["Hello!"; "Hello!"; "My name is Alice."], Ok VNone) ∧
  DecoratorClients.stack 2 3 DecoratorPattern.say_name_body (VStr "Alice") []
    = (["Hello!"; "Hello!"; "My name is Alice."] ++ replicate 3 "Goodbye!",
       Ok VNone).
Proof.
  assert (DecoratorPattern.say_name_body (VStr "Alice")
            ([] ++ replicate 2 "Hello!")
          = (["Hello!"; "Hello!"; "My name is Alice."], Ok VNone)) as H
    by (vm_compute; reflexivity).
  split; [exact H|].
  exact (stack_returns 2 3 DecoratorPattern.say_name_body (VStr "Alice") []
           ["Hello!"; "Hello!"; "My name is Alice."] VNone H).
Defined.

Lemma stack_raises_witness :
  DecoratorPattern.add_numbers_body (VInt 5, VStr "3")
    ([] ++ replicate 1 "Hello!") = (["Hello!"], Raise TypeError) ∧
  DecoratorClients.stack 1 1 DecoratorPattern.add_numbers_body
    (VInt 5, VStr "3") [] = (["Hello!"], Raise TypeError).
Proof.
  assert (DecoratorPattern.add_numbers_body (VInt 5, VStr "3")
            ([] ++ replicate 1 "Hello!") = (["Hello!"], Raise TypeError)) as H
    by (vm_compute; reflexivity).
  split; [exact H|].
  exact (stack_raises 1 1 DecoratorPattern.add_numbers_body
           (VInt 5, VStr "3") [] ["Hello!"] TypeError H).
Defined.


(** ** strategy_pattern.py *)

Section strategy_props.
Import StrategyPattern.

Example strategy_usage_output :
  stdout (usage empty_world).1 =
  [ "Paying 100 using Credit Card.";
    "Paying 50 using PayPal.";
    "Paying 200 using Bank Transfer." ].
Proof. vm_compute. reflexivity. Qed.

Lemma call_pay_run (w : world) (s : loc) (cls : strategy_class)
    (amount : pyval) :
  strategy_at (heap w) s cls → printable amount →
  call_pay s amount w =
    ({| heap := heap w; stdout := stdout w ++ [pay_line cls amount] |}, Ok ()).
Proof.
  intros Hs Hp. unfold call_pay. rewrite Hs.
  destruct cls; unfold CreditCardPayment.pay, PayPalPayment.pay,
    BankTransferPayment.pay;
    by erewrite bind_ok by (by apply str_of_run).
Qed.

Lemma checkout_run (w : world) (self s : loc) (cls : strategy_class)
    (amount : pyval) :
  cart_at (heap w) self s → strategy_at (heap w) s cls → printable amount →
  ShoppingCart.checkout self amount w =
    ({| heap := heap w; stdout := stdout w ++ [pay_line cls amount] |}, Ok ()).
Proof.
  intros Hc Hs Hp. unfold ShoppingCart.checkout.
  erewrite bind_ok; [|by unfold get_cart; rewrite Hc].
  by apply call_pay_run.
Qed.

Lemma set_payment_strategy_run (w : world) (self s0 s : loc) :
  cart_at (heap w) self s0 →
  ShoppingCart.set_payment_strategy self s w =
    ({| heap := <[self := OCart {| _payment_strategy := s |}]> (heap w);
        stdout := stdout w |}, Ok ()).
Proof.
  intros Hc. unfold ShoppingCart.set_payment_strategy.
  erewrite bind_ok; [|by unfold get_cart; rewrite Hc]. done.
Qed.

Lemma set_strategies_run (ss : list loc) :
  ∀ (w : world) (self s0 : loc),
  cart_at (heap w) self s0 →
  ∃ w', for_each ss (ShoppingCart.set_payment_strategy self) w = (w', Ok ()) ∧
        cart_at (heap w') self (default s0 (last ss)) ∧
        stdout w' = stdout w ∧
        ∀ l, l ≠ self → heap w' !! l = heap w !! l.
Proof.
  induction ss as [|s ss IH]; intros w self s0 Hc.
  - by exists w.
  - pose proof (set_payment_strategy_run w self s0 s Hc) as Hr.
    set (w1 := {| heap := _ |}) in Hr.
    destruct (IH w1 self s) as (w' & Hr' & Hc' & Hout & Hfr).
    { unfold cart_at, w1. simpl. by rewrite lookup_insert_eq. }
    exists w'. split; [|split; [|split]].
    + simpl. by erewrite bind_ok by exact Hr.
    + rewrite last_cons. by destruct (last ss).
    + done.
    + intros l Hl. rewrite Hfr by done. unfold w1. simpl.
      by rewrite lookup_insert_ne.
Qed.

(** X15.  The cart pays with the strategy set last.  After any series
    of [set_payment_strategy] calls, [checkout] of an amount that [pay]
    can print prints the one line of the class of the last strategy
    given (of the strategy the cart had, when the series is empty),
    whatever was set before; the calls print nothing themselves and
    change no object but the cart. *)
Theorem last_strategy_pays (w : world) (self s0 : loc) (ss : list loc)
    (cls : strategy_class) (amount : pyval) :
  cart_at (heap w) self s0 →
  strategy_at (heap w) (default s0 (last ss)) cls →
  printable amount →
  ∃ w', switch_then_checkout self ss amount w = (w', Ok ()) ∧
        stdout w' = stdout w ++ [pay_line cls amount] ∧
        cart_at (heap w') self (default s0 (last ss)) ∧
        ∀ l, l ≠ self → heap w' !! l = heap w !! l.
Proof.
  intros Hc Hs Hp.
  destruct (set_strategies_run ss w self s0 Hc) as (w1 & Hr1 & Hc1 & Hout & Hfr).
  assert (strategy_at (heap w1) (default s0 (last ss)) cls) as Hs1.
  { unfold strategy_at. rewrite Hfr; [done|].
    intros Heq. unfold strategy_at, cart_at in *. congruence. }
  pose proof (checkout_run w1 self _ cls amount Hc1 Hs1 Hp) as Hr2.
  eexists. split; [|split; [|split]].
  - unfold switch_then_checkout. erewrite bind_ok by exact Hr1. exact Hr2.
  - simpl. by rewrite Hout.
  - done.
  - done.
Qed.

Lemma last_strategy_pays_witness :
  cart_at (heap cart_world) 3 0 ∧
  strategy_at (heap cart_world) (default 0%nat (last [1%nat; 2%nat; 1%nat]))
    PayPal ∧
  printable (VInt 50) ∧
  ∃ w', switch_then_checkout 3 [1%nat; 2%nat; 1%nat] (VInt 50) cart_world
          = (w', Ok ()) ∧
        stdout w' = stdout cart_world ++ [pay_line PayPal (VInt 50)] ∧
        cart_at (heap w') 3 (default 0%nat (last [1%nat; 2%nat; 1%nat])) ∧
        ∀ l, l ≠ 3%nat → heap w' !! l = heap cart_world !! l.
Proof.
  assert (cart_at (heap cart_world) 3 0) as Hc by (vm_compute; reflexivity).
  assert (strategy_at (heap cart_world)
            (default 0%nat (last [1%nat; 2%nat; 1%nat])) PayPal) as Hs
    by (vm_compute; reflexivity).
  assert (printable (VInt 50)) as Hp by (vm_compute; reflexivity).
  split; [exact Hc|]. split; [exact Hs|]. split; [exact Hp|].
  exact (last_strategy_pays cart_world 3 0 [1%nat; 2%nat; 1%nat] PayPal
           (VInt 50) Hc Hs Hp).
Defined.

(** X16.  [set_payment_strategy] checks nothing about what it is
    given.  Setting an object that is no payment strategy succeeds; the
    failure comes at the next [checkout], which raises
    [AttributeError], prints nothing, and leaves the cart holding that
    object. *)
Theorem bad_strategy_fails_at_checkout (w : world) (self s0 bad : loc)
    (c : ShoppingCartObj) (amount : pyval) :
  cart_at (heap w) self s0 →
  heap w !! bad = Some (OCart c) →
  ∃ w', ShoppingCart.set_payment_strategy self bad w = (w', Ok ()) ∧
        cart_at (heap w') self bad ∧
        ShoppingCart.checkout self amount w' = (w', Raise AttributeError) ∧
        stdout w' = stdout w.
Proof.
  intros Hc Hbad.
  pose proof (set_payment_strategy_run w self s0 bad Hc) as Hr.
  set (w1 := {| heap := _ |}) in Hr.
  assert (cart_at (heap w1) self bad) as Hc1.
  { unfold cart_at, w1. simpl. by rewrite lookup_insert_eq. }
  exists w1. split; [done|]. split; [done|]. split; [|done].
  unfold ShoppingCart.checkout.
  erewrite bind_ok; [|by unfold get_cart; rewrite Hc1].
  unfold call_pay. simpl.
  destruct (decide (self = bad)) as [<-|Hne].
  - by rewrite lookup_insert_eq.
  - rewrite lookup_insert_ne by done. by rewrite Hbad.
Qed.

Lemma bad_strategy_fails_at_checkout_witness :
  cart_at (heap cart_world) 3 0 ∧
  heap cart_world !! 3%nat = Some (OCart {| _payment_strategy := 0 |}) ∧
  ∃ w', ShoppingCart.set_payment_strategy 3 3 cart_world = (w', Ok ()) ∧
        cart_at (heap w') 3 3 ∧
        ShoppingCart.checkout 3 (VInt 1) w' = (w', Raise AttributeError) ∧
        stdout w' = stdout cart_world.
Proof.
  assert (cart_at (heap cart_world) 3 0) as Hc by (vm_compute; reflexivity).
  split; [exact Hc|]. split; [exact Hc|].
  exact (bad_strategy_fails_at_checkout cart_world 3 0 3
           {| _payment_strategy := 0 |} (VInt 1) Hc Hc).
Defined.

(** X17.  [checkout] only reads the cart: any number of checkouts, of
    amounts that [pay] can print, leaves every object as it was, and
    each prints one line for its amount with the same strategy, in the
    order of the calls. *)
Theorem checkouts_keep_strategy (w : world) (self s : loc)
    (cls : strategy_class) (amounts : list pyval) :
  cart_at (heap w) self s → strategy_at (heap w) s cls →
  Forall printable amounts →
  checkouts self amounts w =
    ({| heap := heap w;
        stdout := stdout w ++ (pay_line cls <$> amounts) |}, Ok ()).
Proof.
  intros Hc Hs Hp. unfold checkouts. revert w Hc Hs.
  induction amounts as [|a amounts IH]; intros w Hc Hs.
  - simpl. rewrite app_nil_r. by destruct w.
  - apply Forall_cons in Hp as [Hpa Hp].
    simpl. erewrite bind_ok by (by apply (checkout_run w self s cls)).
    rewrite IH by done. simpl. by rewrite <- app_assoc.
Qed.

Lemma checkouts_keep_strategy_witness :
  cart_at (heap cart_world) 3 0 ∧
  strategy_at (heap cart_world) 0 CreditCard ∧
  Forall printable [VInt 100; VStr "ten"] ∧
  checkouts 3 [VInt 100; VStr "ten"] cart_world =
    ({| heap := heap cart_world;
        stdout := stdout cart_world
                  ++ (pay_line CreditCard <$> [VInt 100; VStr "ten"]) |},
     Ok ()).
Proof.
  assert (cart_at (heap cart_world) 3 0) as Hc by (vm_compute; reflexivity).
  assert (strategy_at (heap cart_world) 0 CreditCard) as Hs
    by (vm_compute; reflexivity).
  assert (Forall printable [VInt 100; VStr "ten"]) as Hp by solve_printable.
  split; [exact Hc|]. split; [exact Hs|]. split; [exact Hp|].
  exact (checkouts_keep_strategy cart_world 3 0 CreditCard
           [VInt 100; VStr "ten"] Hc Hs Hp).
Defined.

(** [checkout] of an amount that [pay] cannot format: the exception of
    [str] comes out, and nothing is printed or changed. *)
Lemma checkout_raises (w : world) (self s : loc) (cls : strategy_class)
    (amount : pyval) (e : exn) :
  cart_at (heap w) self s → strategy_at (heap w) s cls →
  py_str amount = Raise e →
  ShoppingCart.checkout self amount w = (w, Raise e).
Proof.
  intros Hc Hs Hp. unfold ShoppingCart.checkout.
  erewrite bind_ok; [|by unfold get_cart; rewrite Hc].
  simpl. unfold call_pay. rewrite Hs.
  destruct cls; unfold CreditCardPayment.pay, PayPalPayment.pay,
    BankTransferPayment.pay;
    by erewrite bind_raise by (by apply str_of_raise).
Qed.

Example checkout_of_huge_int_raises :
  ShoppingCart.checkout 3 huge cart_world = (cart_world, Raise ValueError).
Proof.
  apply (checkout_raises cart_world 3 0 CreditCard).
  - vm_compute. reflexivity.
  - vm_compute. reflexivity.
  - exact py_str_huge.
Qed.
End strategy_props.


(** ** builder_pattern.py *)

Section builder_props.
Import BuilderPattern.

Example builder_usage_output :
  (usage ∅).2 =
  Ok [ "Veggie Burger: Burger with Sesame Seed buns, Veggie patty, Cheddar cheese, and Lettuce, Tomato, Onion.";
       "Chicken Burger: Burger with Brioche buns, Chicken patty, Swiss cheese, and Pickles, Mayonnaise." ].
Proof. vm_compute. reflexivity. Qed.
Lemma set_buns_run (h : heap) (l : loc) (bg : BurgerObj) (v : pyval) :
  h !! l = Some (OBurger bg) →
  set_buns l v h =
    (<[l := OBurger {| buns := v; patty := patty bg; cheese := cheese bg;
                       toppings := toppings bg |}]> h, Ok ()).
Proof.
  intros Hl. unfold set_buns.
  erewrite bind_ok; [|by unfold deref_burger; rewrite Hl]. done.
Qed.

Lemma set_patty_run (h : heap) (l : loc) (bg : BurgerObj) (v : pyval) :
  h !! l = Some (OBurger bg) →
  set_patty l v h =
    (<[l := OBurger {| buns := buns bg; patty := v; cheese := cheese bg;
                       toppings := toppings bg |}]> h, Ok ()).
Proof.
  intros Hl. unfold set_patty.
  erewrite bind_ok; [|by unfold deref_burger; rewrite Hl]. done.
Qed.

Lemma set_cheese_run (h : heap) (l : loc) (bg : BurgerObj) (v : pyval) :
  h !! l = Some (OBurger bg) →
  set_cheese l v h =
    (<[l := OBurger {| buns := buns bg; patty := patty bg; cheese := v;
                       toppings := toppings bg |}]> h, Ok ()).
Proof.
  intros Hl. unfold set_cheese.
  erewrite bind_ok; [|by unfold deref_burger; rewrite Hl]. done.
Qed.

Lemma extend_toppings_run (h : heap) (l : loc) (bg : BurgerObj)
    (items : list pyval) :
  h !! l = Some (OBurger bg) →
  extend_toppings l items h =
    (<[l := OBurger {| buns := buns bg; patty := patty bg; cheese := cheese bg;
                       toppings := toppings bg ++ items |}]> h, Ok ()).
Proof.
  intros Hl. unfold extend_toppings.
  erewrite bind_ok; [|by unfold deref_burger; rewrite Hl]. done.
Qed.

Ltac builder_dispatch Hb :=
  erewrite bind_ok; [|by unfold deref_builder; rewrite Hb];
  simpl;
  match goal with
  | |- context [match ?c with Veggie => _ | Chicken => _ end] => destruct c
  end;
  (erewrite bind_ok; [|by unfold deref_builder; rewrite Hb]); simpl.

Lemma call_build_buns_run (h : heap) (b bl : loc) (cls : builder_class)
    (bg : BurgerObj) :
  builder_at h b cls bl → h !! bl = Some (OBurger bg) →
  call_build_buns b h =
    (<[bl := OBurger {| buns := buns_of cls; patty := patty bg;
                        cheese := cheese bg; toppings := toppings bg |}]> h,
     Ok ()).
Proof.
  intros Hb Hl. unfold call_build_buns, VeggieBurgerBuilder.build_buns,
    ChickenBurgerBuilder.build_buns.
  builder_dispatch Hb; by apply set_buns_run.
Qed.

Lemma call_build_patty_run (h : heap) (b bl : loc) (cls : builder_class)
    (bg : BurgerObj) :
  builder_at h b cls bl → h !! bl = Some (OBurger bg) →
  call_build_patty b h =
    (<[bl := OBurger {| buns := buns bg; patty := patty_of cls;
                        cheese := cheese bg; toppings := toppings bg |}]> h,
     Ok ()).
Proof.
  intros Hb Hl. unfold call_build_patty, VeggieBurgerBuilder.build_patty,
    ChickenBurgerBuilder.build_patty.
  builder_dispatch Hb; by apply set_patty_run.
Qed.

Lemma call_build_cheese_run (h : heap) (b bl : loc) (cls : builder_class)
    (bg : BurgerObj) :
  builder_at h b cls bl → h !! bl = Some (OBurger bg) →
  call_build_cheese b h =
    (<[bl := OBurger {| buns := buns bg; patty := patty bg;
                        cheese := cheese_of cls; toppings := toppings bg |}]> h,
     Ok ()).
Proof.
  intros Hb Hl. unfold call_build_cheese, VeggieBurgerBuilder.build_cheese,
    ChickenBurgerBuilder.build_cheese.
  builder_dispatch Hb; by apply set_cheese_run.
Qed.

Lemma call_build_toppings_run (h : heap) (b bl : loc) (cls : builder_class)
    (bg : BurgerObj) :
  builder_at h b cls bl → h !! bl = Some (OBurger bg) →
  call_build_toppings b h =
    (<[bl := OBurger {| buns := buns bg; patty := patty bg;
                        cheese := cheese bg;
                        toppings := toppings bg ++ toppings_of cls |}]> h,
     Ok ()).
Proof.
  intros Hb Hl. unfold call_build_toppings, VeggieBurgerBuilder.build_toppings,
    ChickenBurgerBuilder.build_toppings.
  builder_dispatch Hb; by apply extend_toppings_run.
Qed.

Lemma call_get_burger_run (h : heap) (b bl : loc) (cls : builder_class) :
  builder_at h b cls bl → call_get_burger b h = (h, Ok bl).
Proof.
  intros Hb. unfold call_get_burger, VeggieBurgerBuilder.get_burger,
    ChickenBurgerBuilder.get_burger.
  builder_dispatch Hb; done.
Qed.

(** One run of the director: the four steps, on the builder's burger. *)
Lemma construct_run (h : heap) (d b bl : loc) (cls : builder_class)
    (bg : BurgerObj) :
  director_at h d b → builder_at h b cls bl → h !! bl = Some (OBurger bg) →
  Director.construct_burger d h =
    (<[bl := OBurger {| buns := buns_of cls; patty := patty_of cls;
                        cheese := cheese_of cls;
                        toppings := toppings bg ++ toppings_of cls |}]> h,
     Ok ()).
Proof.
  intros Hd Hb Hl.
  assert (d ≠ bl ∧ b ≠ bl) as [Hn1 Hn2].
  { unfold director_at, builder_at in *. split; intros ->; congruence. }
  unfold Director.construct_burger.
  erewrite bind_ok; [|by unfold deref_director; rewrite Hd]. simpl.
  erewrite bind_ok by (by eapply call_build_buns_run).
  set (h1 := <[bl := _]> h).
  assert (director_at h1 d b ∧ builder_at h1 b cls bl) as [Hd1 Hb1].
  { unfold director_at, builder_at, h1. by rewrite !lookup_insert_ne. }
  erewrite bind_ok; [|by unfold deref_director; rewrite Hd1]. simpl.
  erewrite bind_ok.
  2:{ eapply call_build_patty_run; [exact Hb1|].
      unfold h1. by rewrite lookup_insert_eq. }
  simpl. set (h2 := <[bl := _]> h1).
  assert (director_at h2 d b ∧ builder_at h2 b cls bl) as [Hd2 Hb2].
  { unfold director_at, builder_at, h2. by rewrite !lookup_insert_ne. }
  erewrite bind_ok; [|by unfold deref_director; rewrite Hd2]. simpl.
  erewrite bind_ok.
  2:{ eapply call_build_cheese_run; [exact Hb2|].
      unfold h2. by rewrite lookup_insert_eq. }
  simpl. set (h3 := <[bl := _]> h2).
  assert (director_at h3 d b ∧ builder_at h3 b cls bl) as [Hd3 Hb3].
  { unfold director_at, builder_at, h3. by rewrite !lookup_insert_ne. }
  erewrite bind_ok; [|by unfold deref_director; rewrite Hd3]. simpl.
  erewrite call_build_toppings_run; [|exact Hb3|].
  2:{ unfold h3. by rewrite lookup_insert_eq. }
  simpl. unfold h3, h2, h1. by rewrite !insert_insert_eq.
Qed.

Lemma after_builds_step (cls : builder_class) (bg : BurgerObj) (k : nat) :
  after_builds cls
    {| buns := buns_of cls; patty := patty_of cls; cheese := cheese_of cls;
       toppings := toppings bg ++ toppings_of cls |} k
  = after_builds cls bg (S k).
Proof.
  destruct k as [|k]; simpl.
  - by rewrite app_nil_r.
  - by rewrite <- app_assoc.
Qed.

Lemma construct_times_run (k : nat) :
  ∀ (h : heap) (d b bl : loc) (cls : builder_class) (bg : BurgerObj),
  director_at h d b → builder_at h b cls bl → h !! bl = Some (OBurger bg) →
  ∃ h', construct_times k d h = (h', Ok ()) ∧
        h' !! bl = Some (OBurger (after_builds cls bg k)) ∧
        ∀ l, l ≠ bl → h' !! l = h !! l.
Proof.
  induction k as [|k IH]; intros h d b bl cls bg Hd Hb Hl.
  - by exists h.
  - assert (d ≠ bl ∧ b ≠ bl) as [Hn1 Hn2].
    { unfold director_at, builder_at in *. split; intros ->; congruence. }
    pose proof (construct_run h d b bl cls bg Hd Hb Hl) as Hr.
    set (h1 := <[bl := _]> h) in Hr.
    destruct (IH h1 d b bl cls
      {| buns := buns_of cls; patty := patty_of cls; cheese := cheese_of cls;
         toppings := toppings bg ++ toppings_of cls |})
      as (h' & Hr' & Hl' & Hfr).
    { unfold director_at, h1. by rewrite lookup_insert_ne. }
    { unfold builder_at, h1. by rewrite lookup_insert_ne. }
    { unfold h1. by rewrite lookup_insert_eq. }
    exists h'. split; [|split].
    + unfold construct_times in *. simpl. by erewrite bind_ok by exact Hr.
    + by rewrite Hl', after_builds_step.
    + intros l Hne. rewrite Hfr by done. unfold h1.
      by rewrite lookup_insert_ne.
Qed.

(** X18.  The director does not start from a new burger.  Running
    [construct_burger] [k] times on one builder sets buns, patty and
    cheese to the same values every time, but [build_toppings] extends
    the list, so the burger ends with [k] copies of the builder's
    toppings after whatever toppings it had; no other object is
    touched. *)
Theorem repeated_construction_piles_toppings (h : heap) (d b bl : loc)
    (cls : builder_class) (bg : BurgerObj) (k : nat) :
  director_at h d b → builder_at h b cls bl → h !! bl = Some (OBurger bg) →
  ∃ h', construct_times (S k) d h = (h', Ok ()) ∧
        h' !! bl =
          Some (OBurger
                  {| buns := buns_of cls; patty := patty_of cls;
                     cheese := cheese_of cls;
                     toppings := toppings bg
                                 ++ concat (replicate (S k) (toppings_of cls)) |}) ∧
        ∀ l, l ≠ bl → h' !! l = h !! l.
Proof.
  intros Hd Hb Hl.
  exact (construct_times_run (S k) h d b bl cls bg Hd Hb Hl).
Qed.

Lemma repeated_construction_piles_toppings_witness :
  director_at kitchen 2 1 ∧ builder_at kitchen 1 Veggie 0 ∧
  kitchen !! 0%nat =
    Some (OBurger {| buns := VNone; patty := VNone; cheese := VNone;
                     toppings := [] |}) ∧
  ∃ h', construct_times (S 1) 2 kitchen = (h', Ok ()) ∧
        h' !! 0%nat =
          Some (OBurger
                  {| buns := buns_of Veggie; patty := patty_of Veggie;
                     cheese := cheese_of Veggie;
                     toppings := [] ++ concat (replicate (S 1)
                                                 (toppings_of Veggie)) |}) ∧
        ∀ l, l ≠ 0%nat → h' !! l = kitchen !! l.
Proof.
  assert (director_at kitchen 2 1) as Hd by (vm_compute; reflexivity).
  assert (builder_at kitchen 1 Veggie 0) as Hb by (vm_compute; reflexivity).
  assert (kitchen !! 0%nat =
    Some (OBurger {| buns := VNone; patty := VNone; cheese := VNone;
                     toppings := [] |})) as Hl by (vm_compute; reflexivity).
  split; [exact Hd|]. split; [exact Hb|]. split; [exact Hl|].
  exact (repeated_construction_piles_toppings kitchen 2 1 0 Veggie
           {| buns := VNone; patty := VNone; cheese := VNone; toppings := [] |}
           1 Hd Hb Hl).
Defined.

Example twice_built_text :
  (construct_times 2 2 ;; Burger.__str__ 0) kitchen =
  ((construct_times 2 2 kitchen).1,
   Ok "Burger with Sesame Seed buns, Veggie patty, Cheddar cheese, and Lettuce, Tomato, Onion, Lettuce, Tomato, Onion.").
Proof. vm_compute. reflexivity. Qed.

(** A new builder: a new burger with nothing set, and the builder that
    holds it. *)
Lemma new_builder_run (h : heap) (cls : builder_class) :
  ∃ h' b bl, new_builder cls h = (h', Ok b) ∧
             builder_at h' b cls bl ∧
             h' !! bl = Some (OBurger {| buns := VNone; patty := VNone;
                                         cheese := VNone; toppings := [] |}) ∧
             h !! b = None ∧ h !! bl = None ∧
             ∀ l, l ≠ b → l ≠ bl → h' !! l = h !! l.
Proof.
  set (bl := fresh (dom h)).
  assert (h !! bl = None) as Hf1.
  { apply (not_elem_of_dom (D:=gset nat)), is_fresh. }
  set (h1 := <[bl := OBurger {| buns := VNone; patty := VNone;
                                cheese := VNone; toppings := [] |}]> h).
  set (b := fresh (dom h1)).
  assert (h1 !! b = None) as Hf2.
  { apply (not_elem_of_dom (D:=gset nat)), is_fresh. }
  assert (b ≠ bl) as Hne.
  { intros Heq. rewrite Heq in Hf2. unfold h1 in Hf2.
    by rewrite lookup_insert_eq in Hf2. }
  assert (h !! b = None) as Hfb.
  { unfold h1 in Hf2. by rewrite lookup_insert_ne in Hf2. }
  exists (<[b := OBuilder {| class_of := cls; burger := bl |}]> h1), b, bl.
  split; [by destruct cls|]. split.
  { unfold builder_at. by rewrite lookup_insert_eq. }
  split.
  { rewrite lookup_insert_ne by done. unfold h1. by rewrite lookup_insert_eq. }
  split; [done|]. split; [done|].
  intros l H1 H2. unfold h1. by rewrite !lookup_insert_ne.
Qed.

Lemma built_burger_text (h : heap) (bl : loc) (cls : builder_class) :
  h !! bl = Some (OBurger {| buns := buns_of cls; patty := patty_of cls;
                             cheese := cheese_of cls;
                             toppings := [] ++ toppings_of cls |}) →
  Burger.__str__ bl h = (h, Ok (built_text cls)).
Proof.
  intros Hl. unfold Burger.__str__.
  erewrite bind_ok; [|by unfold deref_burger; rewrite Hl].
  destruct cls; reflexivity.
Qed.

(** X19.  [get_burger] hands out the builder's own burger, not a copy
    and not a new one: the reference obtained before the director has
    run is the reference obtained after, and through it the built
    burger is seen. *)
Theorem burger_is_shared (h : heap) (cls : builder_class) :
  ∃ h', ask_early cls h = (h', Ok (true, built_text cls)).
Proof.
  destruct (new_builder_run h cls) as (h1 & b & bl & Hr1 & Hb & Hl & _ & _ & _).
  pose proof (call_get_burger_run h1 b bl cls Hb) as Hr2.
  set (d := fresh (dom h1)).
  assert (h1 !! d = None) as Hfd.
  { apply (not_elem_of_dom (D:=gset nat)), is_fresh. }
  assert (d ≠ b ∧ d ≠ bl) as [Hn1 Hn2].
  { unfold builder_at in Hb. split; intros Heq; rewrite Heq in Hfd; congruence. }
  set (h2 := <[d := ODirector {| _builder := b |}]> h1).
  assert (Director.__init__ b h1 = (h2, Ok d)) as Hr3 by done.
  assert (director_at h2 d b) as Hd.
  { unfold director_at, h2. by rewrite lookup_insert_eq. }
  assert (builder_at h2 b cls bl) as Hb2.
  { unfold builder_at, h2. by rewrite lookup_insert_ne. }
  assert (h2 !! bl = Some (OBurger {| buns := VNone; patty := VNone;
                                      cheese := VNone; toppings := [] |})) as Hl2.
  { unfold h2. by rewrite lookup_insert_ne. }
  pose proof (construct_run h2 d b bl cls _ Hd Hb2 Hl2) as Hr4.
  set (h3 := <[bl := _]> h2) in Hr4.
  assert (b ≠ bl) by (intros ->; unfold builder_at in Hb; congruence).
  assert (builder_at h3 b cls bl) as Hb3.
  { unfold builder_at, h3. by rewrite lookup_insert_ne. }
  pose proof (call_get_burger_run h3 b bl cls Hb3) as Hr5.
  exists h3. unfold ask_early.
  erewrite bind_ok by exact Hr1. erewrite bind_ok by exact Hr2.
  erewrite bind_ok by exact Hr3. erewrite bind_ok by exact Hr4.
  erewrite bind_ok by exact Hr5.
  erewrite bind_ok.
  2:{ apply built_burger_text. unfold h3. by rewrite lookup_insert_eq. }
  by rewrite bool_decide_eq_true_2.
Qed.

(** X20.  A burger on which no build step has run yet can be printed:
    the unset parts read [None], an unset cheese reads [no], and the
    empty list of toppings reads [no toppings]. *)
Theorem unbuilt_burger_text (h : heap) (cls : builder_class) :
  ∃ h', describe_unbuilt cls h =
          (h', Ok "Burger with None buns, None patty, no cheese, and no toppings.").
Proof.
  destruct (new_builder_run h cls) as (h1 & b & bl & Hr1 & Hb & Hl & _ & _ & _).
  pose proof (call_get_burger_run h1 b bl cls Hb) as Hr2.
  exists h1. unfold describe_unbuilt.
  erewrite bind_ok by exact Hr1. erewrite bind_ok by exact Hr2.
  unfold Burger.__str__.
  erewrite bind_ok; [|by unfold deref_burger; rewrite Hl].
  reflexivity.
Qed.
End builder_props.


(** ** factory_method_pattern.py *)

Section factory_method_props.
Import FactoryMethodPattern.

Example factory_method_usage_output :
  stdout (usage empty_world).1 =
  [ "App: Launched with the ConcreteCreatorA.";
    "Client: I'm not aware of the creator's class, but it still works."
      +:+ newline +:+
      "Creator: The same creator's code has just worked with ConcreteProductA operation";
    newline +:+ "App: Launched with the ConcreteCreatorB.";
    "Client: I'm not aware of the creator's class, but it still works."
      +:+ newline +:+
      "Creator: The same creator's code has just worked with ConcreteProductB operation" ].
Proof. vm_compute. reflexivity. Qed.

(** One call: a new product of the creator's kind, and the text. *)
Lemma some_operation_run (w : world) (c : loc) (k : creator_class) :
  heap w !! c = Some (OCreator k) →
  heap w !! fresh (dom (heap w)) = None ∧
  Creator.some_operation c w =
    ({| heap := <[fresh (dom (heap w)) := OProduct (product_of k)]> (heap w);
        stdout := stdout w |}, Ok (some_operation_text k)).
Proof.
  intros Hc. split.
  { apply (not_elem_of_dom (D:=gset nat)), is_fresh. }
  unfold Creator.some_operation, call_factory_method, mbind, exec_bind.
  rewrite Hc.
  destruct k; simpl; unfold call_operation; simpl;
    by rewrite lookup_insert_eq.
Qed.

Lemma operate_times_run (n : nat) :
  ∀ (w : world) (c : loc) (k : creator_class),
  heap w !! c = Some (OCreator k) →
  ∃ w', operate_times n c w = (w', Ok (replicate n (some_operation_text k))) ∧
        size (heap w') = (size (heap w) + n)%nat ∧
        stdout w' = stdout w ∧
        ∀ l, is_Some (heap w !! l) → heap w' !! l = heap w !! l.
Proof.
  induction n as [|n IH]; intros w c k Hc.
  - exists w. split; [done|]. split; [lia|]. done.
  - destruct (some_operation_run w c k Hc) as [Hf Hr].
    set (p := fresh (dom (heap w))) in *.
    set (w1 := {| heap := _ |}) in Hr.
    assert (p ≠ c) by (intros ->; congruence).
    destruct (IH w1 c k) as (w' & Hr' & Hsize & Hout & Hfr).
    { unfold w1. simpl. by rewrite lookup_insert_ne. }
    exists w'. split; [|split; [|split]].
    + simpl. erewrite bind_ok by exact Hr. by erewrite bind_ok by exact Hr'.
    + rewrite Hsize. unfold w1. simpl.
      rewrite map_size_insert_None by done. lia.
    + done.
    + intros l [o Ho]. rewrite Hfr.
      * unfold w1. simpl. rewrite lookup_insert_ne; [done|].
        intros <-. congruence.
      * unfold w1. simpl. rewrite lookup_insert_ne; [by rewrite Ho|].
        intros <-. congruence.
Qed.

(** X21.  [some_operation] makes a new product on every call and never
    keeps or reuses one: [n] calls on one creator leave [n] more
    objects in the heap, leave every earlier object as it was, print
    nothing, and each returns the same text, which names the product
    class that belongs to the creator's class. *)
Theorem some_operation_makes_new_products (w : world) (c : loc)
    (k : creator_class) (n : nat) :
  heap w !! c = Some (OCreator k) →
  ∃ w', operate_times n c w = (w', Ok (replicate n (some_operation_text k))) ∧
        size (heap w') = (size (heap w) + n)%nat ∧
        stdout w' = stdout w ∧
        ∀ l, is_Some (heap w !! l) → heap w' !! l = heap w !! l.
Proof. intros Hc. by apply operate_times_run. Qed.

Lemma some_operation_makes_new_products_witness :
  heap two_creators !! 1%nat = Some (OCreator CreatorB) ∧
  ∃ w', operate_times 3 1 two_creators
          = (w', Ok (replicate 3 (some_operation_text CreatorB))) ∧
        size (heap w') = (size (heap two_creators) + 3)%nat ∧
        stdout w' = stdout two_creators ∧
        ∀ l, is_Some (heap two_creators !! l) →
             heap w' !! l = heap two_creators !! l.
Proof.
  assert (heap two_creators !! 1%nat = Some (OCreator CreatorB)) as Hc
    by (vm_compute; reflexivity).
  split; [exact Hc|].
  exact (some_operation_makes_new_products two_creators 1 CreatorB 3 Hc).
Defined.

(** X22.  [client_code] works with any creator without looking at its
    class: it prints one console entry, the fixed client sentence, a
    line break and what the creator's [some_operation] returned; two
    creators print the same entry exactly when they are of the same
    class. *)
Theorem client_code_by_creator (w : world) (c1 c2 : loc)
    (k1 k2 : creator_class) :
  heap w !! c1 = Some (OCreator k1) →
  heap w !! c2 = Some (OCreator k2) →
  ∃ w1 w2 line1 line2,
    client_code c1 w = (w1, Ok ()) ∧ stdout w1 = stdout w ++ [line1] ∧
    client_code c2 w = (w2, Ok ()) ∧ stdout w2 = stdout w ++ [line2] ∧
    line1 = "Client: I'm not aware of the creator's class, but it still works."
            +:+ newline +:+ some_operation_text k1 ∧
    line2 = "Client: I'm not aware of the creator's class, but it still works."
            +:+ newline +:+ some_operation_text k2 ∧
    (line1 = line2 ↔ k1 = k2).
Proof.
  intros Hc1 Hc2.
  destruct (some_operation_run w c1 k1 Hc1) as [_ Hr1].
  destruct (some_operation_run w c2 k2 Hc2) as [_ Hr2].
  eexists _, _, _, _. split; [|split; [|split; [|split; [|split; [|split]]]]].
  - unfold client_code. erewrite bind_ok by exact Hr1. reflexivity.
  - reflexivity.
  - unfold client_code. erewrite bind_ok by exact Hr2. reflexivity.
  - reflexivity.
  - reflexivity.
  - reflexivity.
  - split.
    + destruct k1, k2; try done; intros Heq; vm_compute in Heq; discriminate.
    + by intros ->.
Qed.

Lemma client_code_by_creator_witness :
  heap two_creators !! 0%nat = Some (OCreator CreatorA) ∧
  heap two_creators !! 1%nat = Some (OCreator CreatorB) ∧
  ∃ w1 w2 line1 line2,
    client_code 0 two_creators = (w1, Ok ()) ∧
    stdout w1 = stdout two_creators ++ [line1] ∧
    client_code 1 two_creators = (w2, Ok ()) ∧
    stdout w2 = stdout two_creators ++ [line2] ∧
    line1 = "Client: I'm not aware of the creator's class, but it still works."
            +:+ newline +:+ some_operation_text CreatorA ∧
    line2 = "Client: I'm not aware of the creator's class, but it still works."
            +:+ newline +:+ some_operation_text CreatorB ∧
    (line1 = line2 ↔ CreatorA = CreatorB).
Proof.
  assert (heap two_creators !! 0%nat = Some (OCreator CreatorA)) as Hc1
    by (vm_compute; reflexivity).
  assert (heap two_creators !! 1%nat = Some (OCreator CreatorB)) as Hc2
    by (vm_compute; reflexivity).
  split; [exact Hc1|]. split; [exact Hc2|].
  exact (client_code_by_creator two_creators 0 1 CreatorA CreatorB Hc1 Hc2).
Defined.
End factory_method_props.
